(** * The job engine of the multi-agent task solver (server.js)

    A shallow embedding of [planAgents], [executeJob] and the two HTTP
    handlers of server.js, and the properties of the job lifecycle, of the
    event stream and of replay that the specification states about them.

    The server is one JavaScript process: a handler runs until it returns
    or reaches an [await].  [executeJob] is an async function whose only
    suspension point is the timer it awaits at the top of an agent's step
    loop, so that a run is a sequence of atomic segments, each started by
    the request or by one timer firing.  The embedding has one transition
    per segment; segments of different requests interleave freely. *)

From Stdlib Require Import ZArith QArith Qround String Ascii List Bool Lia.
From stdpp Require Import gmap strings list pretty.
Import ListNotations.
Local Open Scope string_scope.

(** ** JavaScript values *)

(** A JavaScript number: a finite value (every double is a rational), an
    infinity or NaN.  Signed zero is not told apart; no comparison of the
    server sees the difference. *)
Inductive number : Type :=
  | NaN
  | Fin (q : Q)
  | PosInf
  | NegInf.

Definition Qltb (x y : Q) : bool := negb (Qle_bool y x).

(** [x < y]: false when a side is NaN. *)
Definition js_lt (x y : number) : bool :=
  match x, y with
  | NaN, _ => false
  | _, NaN => false
  | Fin a, Fin b => Qltb a b
  | Fin _, PosInf => true
  | Fin _, NegInf => false
  | PosInf, _ => false
  | NegInf, NegInf => false
  | NegInf, _ => true
  end.

(** [Math.min(x, y)] and [Math.max(x, y)]: NaN when an argument is NaN. *)
Definition Math_min (x y : number) : number :=
  match x, y with
  | NaN, _ => NaN
  | _, NaN => NaN
  | _, _ => if js_lt y x then y else x
  end.

Definition Math_max (x y : number) : number :=
  match x, y with
  | NaN, _ => NaN
  | _, NaN => NaN
  | _, _ => if js_lt x y then y else x
  end.

(** [Math.round] on a finite value: the nearest integer, halves upwards. *)
Definition Math_round (q : Q) : Z := Qfloor (q + (1 # 2)).

(** A number that lies in the closed unit interval. *)
Definition in_unit_interval (x : number) : Prop :=
  match x with
  | Fin q => (0 <= q)%Q /\ (q <= 1)%Q
  | _ => False
  end.

(** What [Math.random()] may return: a value of [0, 1). *)
Definition unit_draw (r : Q) : Prop := (0 <= r)%Q /\ (r < 1)%Q.

(** [s.includes(sub)] *)
Fixpoint includes (s sub : string) : bool :=
  String.prefix sub s ||
  match s with
  | EmptyString => false
  | String _ s' => includes s' sub
  end.

(** A parsed JSON document, as [express.json()] leaves it in [req.body].
    An object lists its members in the order of the text; of a repeated
    key the last member counts, as in [JSON.parse]. *)
#[warnings="-register-all"]
Inductive json : Type :=
  | JNull
  | JBool (b : bool)
  | JNum (n : number)
  | JStr (s : string)
  | JArr (items : list json)
  | JObj (fields : list (string * json)).

(** A value of [req.query]: absent, a string, or an array or object (a
    repeated key, or the bracket syntax of the query parser). *)
Inductive qparam : Type :=
  | QAbsent
  | QStr (s : string)
  | QNested.

(** ** The built-ins on ASCII text

    [String.prototype.toLowerCase] and [Number] applied to a string depend
    on the Unicode tables and on the numeric grammar of the language; the
    server is embedded over any such pair of functions (section [Server]).
    The two functions below are what they compute on ASCII text, where
    [Number] keeps the exact value of the literal instead of its nearest
    double. *)

Definition ascii_lower_char (c : ascii) : ascii :=
  let n := nat_of_ascii c in
  if (65 <=? n)%nat && (n <=? 90)%nat then ascii_of_nat (n + 32) else c.

Fixpoint ascii_toLowerCase (s : string) : string :=
  match s with
  | EmptyString => EmptyString
  | String c s' => String (ascii_lower_char c) (ascii_toLowerCase s')
  end.

Definition is_white_space (c : ascii) : bool :=
  let n := nat_of_ascii c in
  (n =? 9)%nat || (n =? 10)%nat || (n =? 11)%nat || (n =? 12)%nat
  || (n =? 13)%nat || (n =? 32)%nat.

Fixpoint trim_start (s : string) : string :=
  match s with
  | String c s' => if is_white_space c then trim_start s' else s
  | EmptyString => EmptyString
  end.

Definition trim (s : string) : string :=
  String.rev (trim_start (String.rev (trim_start s))).

Definition digit_of (base : N) (c : ascii) : option N :=
  let n := N_of_ascii c in
  let d :=
    if (48 <=? n)%N && (n <=? 57)%N then Some (n - 48)%N
    else if (97 <=? n)%N && (n <=? 102)%N then Some (n - 87)%N
    else if (65 <=? n)%N && (n <=? 70)%N then Some (n - 55)%N
    else None in
  match d with
  | Some v => if (v <? base)%N then Some v else None
  | None => None
  end.

(** The longest run of digits at the front of [s]: its value on top of
    [acc], the number of digits read on top of [n], and what follows. *)
Fixpoint read_digits (base : N) (s : string) (acc : N) (n : nat)
  : N * nat * string :=
  match s with
  | String c s' =>
      match digit_of base c with
      | Some d => read_digits base s' (acc * base + d)%N (S n)
      | None => (acc, n, s)
      end
  | EmptyString => (acc, n, s)
  end.

Definition Qpow10 (e : Z) : Q := Qpower (inject_Z 10) e.

(** ExponentPart, optional: the exponent and nothing after it. *)
Definition read_exponent (s : string) : option Z :=
  match s with
  | EmptyString => Some 0%Z
  | String c s' =>
      if (c =? "e")%char || (c =? "E")%char then
        let '(neg, s'') :=
          match s' with
          | String "-" t => (true, t)
          | String "+" t => (false, t)
          | _ => (false, s')
          end in
        match read_digits 10 s'' 0 0 with
        | (v, S _, EmptyString) =>
            Some (if neg : bool then (- Z.of_N v)%Z else Z.of_N v)
        | _ => None
        end
      else None
  end.

(** StrUnsignedDecimalLiteral *)
Definition unsigned_decimal (s : string) : number :=
  if String.eqb s "Infinity" then PosInf else
  let '(ip, ni, r1) := read_digits 10 s 0 0 in
  let '(m, nf, r2) :=
    match r1 with
    | String "." t => let '(v, k, r) := read_digits 10 t ip 0 in (v, k, r)
    | _ => (ip, 0%nat, r1)
    end in
  match (ni + nf)%nat, read_exponent r2 with
  | S _, Some e =>
      Fin (Qred (inject_Z (Z.of_N m) * Qpow10 (e - Z.of_nat nf)))
  | _, _ => NaN
  end.

Definition negate (x : number) : number :=
  match x with
  | NaN => NaN
  | Fin q => Fin (Qred (- q))
  | PosInf => NegInf
  | NegInf => PosInf
  end.

(** NonDecimalIntegerLiteral: the digits after the 0x, 0o or 0b *)
Definition radix_literal (base : N) (s : string) : number :=
  match read_digits base s 0 0 with
  | (v, S _, EmptyString) => Fin (inject_Z (Z.of_N v))
  | _ => NaN
  end.

(** [Number(s)] on an ASCII string (StringToNumber). *)
Definition ascii_Number (s : string) : number :=
  match trim s with
  | EmptyString => Fin 0
  | String "+" t => unsigned_decimal t
  | String "-" t => negate (unsigned_decimal t)
  | String "0" (String c t) as u =>
      if (c =? "x")%char || (c =? "X")%char then radix_literal 16 t
      else if (c =? "o")%char || (c =? "O")%char then radix_literal 8 t
      else if (c =? "b")%char || (c =? "B")%char then radix_literal 2 t
      else unsigned_decimal u
  | u => unsigned_decimal u
  end.

(** ** The data model *)

(** An entry of the plan: [{ id, name, role, steps }]. *)
Module Agent.
Record t : Type := mk { id : string; name : string; role : string; steps : nat }.
End Agent.

(** [{ summary }], the output of an agent that completed. *)
Module Output.
Record t : Type := mk { summary : string }.
End Output.

(** The record of an agent within a job:
    [{ id, name, role, status, progress, logs }], and [output] once the
    agent completed. *)
Module Run.
Record t : Type := mk {
  id : string;
  name : string;
  role : string;
  status : string;
  progress : Z;
  logs : list string;
  output : option Output.t
}.
Definition set_status (v : string) (r : t) : t :=
  mk (id r) (name r) (role r) v (progress r) (logs r) (output r).
Definition set_progress (v : Z) (r : t) : t :=
  mk (id r) (name r) (role r) (status r) v (logs r) (output r).
Definition push_log (l : string) (r : t) : t :=
  mk (id r) (name r) (role r) (status r) (progress r) (logs r ++ [l]) (output r).
Definition set_output (o : Output.t) (r : t) : t :=
  mk (id r) (name r) (role r) (status r) (progress r) (logs r) (Some o).
End Run.

(** The artifacts of a result: a chart with a reference, or a table with
    its rows inline. *)
Inductive artifact : Type :=
  | Chart (format url description : string)
  | Table (format : string) (data : list (string * Z)).

Module Result.
Record t : Type := mk {
  title : string;
  request : string;
  synthesizedSummary : string;
  artifacts : list artifact
}.
End Result.

(** [{ id, status, createdAt, agents, result }] *)
Module Job.
Record t : Type := mk {
  id : string;
  status : string;
  createdAt : Z;
  agents : list Run.t;
  result : option Result.t
}.
Definition set_status (v : string) (j : t) : t :=
  mk (id j) v (createdAt j) (agents j) (result j).
Definition set_agents (v : list Run.t) (j : t) : t :=
  mk (id j) (status j) (createdAt j) v (result j).
Definition set_result (v : Result.t) (j : t) : t :=
  mk (id j) (status j) (createdAt j) (agents j) (Some v).
End Job.

(** ** The planner *)

Definition baseAgents : list Agent.t :=
  [ Agent.mk "planner" "Planner" "Break down the request" 1;
    Agent.mk "researcher" "Researcher" "Gather data and sources" 3;
    Agent.mk "analyst" "Analyst" "Analyze trends and insights" 3;
    Agent.mk "visualizer" "Visualizer" "Create charts/tables" 2;
    Agent.mk "editor" "Editor" "Compose final structured report" 2 ].

Definition engineer : Agent.t :=
  Agent.mk "engineer" "Engineer" "Prototype or integrate APIs" 2.

Definition finance : Agent.t :=
  Agent.mk "finance" "Finance SME" "Validate financial logic" 2.

(** [l.splice(start, deleteCount, ...items)], the array it leaves. *)
Definition splice {A} (start deleteCount : nat) (items l : list A) : list A :=
  take start l ++ items ++ drop (start + deleteCount) l.

(** [l.unshift(x)] *)
Definition unshift {A} (x : A) (l : list A) : list A := x :: l.

Section Planner.
Variable toLowerCase : string -> string.

Definition wants_engineer (lower : string) : bool :=
  includes lower "code" || includes lower "api".

Definition wants_finance (lower : string) : bool :=
  includes lower "financial" || includes lower "quarter".

Definition planAgents (requestText : string) : list Agent.t :=
  let lower := toLowerCase requestText in
  let agents := baseAgents in
  let agents :=
    if wants_engineer lower then splice 2 0 [engineer] agents else agents in
  let agents :=
    if wants_finance lower then unshift finance agents else agents in
  agents.
End Planner.

(** ** The event stream *)

(** The [data] of an event.  [JSON.stringify] runs when the event is
    written, so that an event holds the values of that moment. *)
Inductive payload : Type :=
  | JobStartData (jobId : string) (createdAt : Z)
  | PlanData (agents : list Agent.t)
  | AgentStartData (agent : Run.t)
  | AgentStartReplayData (id name role : string)
  | AgentProgressData (id : string) (progress : Z) (log : string)
  | AgentCompleteData (id : string) (output : option Output.t)
  | JobCompleteData (jobId : string) (result : option Result.t)
  | JobErrorData (message : string) (agentId : option string).

Record sse_event : Type := { event : string; data : payload }.

(** The response of a stream request: the events written to it, and
    whether [res.end()] was called. *)
Record Response : Type := { written : list sse_event; ended : bool }.

(** Nothing reaches the client once the response has ended. *)
Definition sseWrite (res : Response) (event : string) (data : payload) : Response :=
  if ended res then res
  else {| written := written res ++ [{| event := event; data := data |}];
          ended := false |}.

Definition res_end (res : Response) : Response :=
  {| written := written res; ended := true |}.

(** ** The state of the server *)

(** [executeJob] suspended at the [await] of its step loop: the variables
    of the function that are live there.  [k_run] is the place of
    [agentRun] in [job.agents], [k_rest] the agents that the [for]-[of]
    loop has not reached. *)
Record Cont : Type := {
  k_jobId : string;
  k_requestText : string;
  k_failRate : number;
  k_agent : Agent.t;
  k_run : nat;
  k_step : nat;
  k_rest : list Agent.t
}.

(** One request to [GET /api/stream/:jobId]: its response, the job object
    that its call of [executeJob] created (none when the request was a
    replay), and the suspended call when it awaits its timer. *)
Record Call : Type := {
  res : Response;
  job : option Job.t;
  awaiting : option Cont
}.

(** [jobs] is the [Map] of the server.  It holds references: a call of
    [executeJob] creates exactly one job object, which the number of the
    request names, and keeps mutating that object whether or not [jobs]
    still points to it. *)
Record World : Type := {
  jobs : gmap string nat;
  calls : list Call
}.

Definition initial : World := {| jobs := ∅; calls := [] |}.

(** [jobs.get(jobId)], dereferenced. *)
Definition jobs_get (w : World) (jobId : string) : option Job.t :=
  match jobs w !! jobId with
  | Some i =>
      match calls w !! i with
      | Some c => job c
      | None => None
      end
  | None => None
  end.

Definition on_res (f : Response -> Response) (c : Call) : Call :=
  {| res := f (res c); job := job c; awaiting := awaiting c |}.

Definition on_job (f : Job.t -> Job.t) (c : Call) : Call :=
  {| res := res c; job := f <$> job c; awaiting := awaiting c |}.

Definition set_awaiting (k : option Cont) (c : Call) : Call :=
  {| res := res c; job := job c; awaiting := k |}.

Definition set_job (j : Job.t) (c : Call) : Call :=
  {| res := res c; job := Some j; awaiting := awaiting c |}.

Definition on_call (i : nat) (f : Call -> Call) (w : World) : World :=
  {| jobs := jobs w; calls := alter f i (calls w) |}.

(** A write to the [i]-th element of [job.agents] through [agentRun]. *)
Definition on_run (i : nat) (f : Run.t -> Run.t) (j : Job.t) : Job.t :=
  Job.set_agents (alter f i (Job.agents j)) j.

Definition job_agents (c : Call) : list Run.t :=
  match job c with
  | Some j => Job.agents j
  | None => []
  end.

(** ** The runner *)

Definition newline : string := String (ascii_of_nat 10) EmptyString.

Definition artifacts : list artifact :=
  [ Chart "svg" "/placeholder-chart.svg" "Example chart artifact";
    Table "json" [("Q1", 120%Z); ("Q2", 140%Z); ("Q3", 160%Z)] ].

(** [a.output?.summary] inside [join]: an absent summary joins as the
    empty string. *)
Definition summary_of (a : Run.t) : string :=
  match Run.output a with
  | Some o => Output.summary o
  | None => ""
  end.

(** [Math.round((step / totalSteps) * 100)].  The quotient is exact here
    where the server rounds it to a double; for the planner's step counts
    (1, 2 and 3) both give 33, 50, 67 and 100. *)
Definition progress_at (step totalSteps : nat) : Z :=
  Math_round (inject_Z (Z.of_nat step) / inject_Z (Z.of_nat totalSteps) * inject_Z 100).

Definition step_log (agent : Agent.t) (step : nat) : string :=
  Agent.name agent ++ ": completed step " ++ pretty step ++ "/"
  ++ pretty (Agent.steps agent).

Definition error_message (agent : Agent.t) (step : nat) : string :=
  Agent.name agent ++ " encountered an error at step " ++ pretty step.

Definition output_of (agent : Agent.t) : Output.t :=
  Output.mk (Agent.name agent ++ " completed: " ++ Agent.role agent).

(** Lines 80-84: the agent's steps are done. *)
Definition complete_agent (agent : Agent.t) (i : nat) (c : Call) : Call :=
  let output := output_of agent in
  let c := on_job (on_run i (Run.set_status "completed")) c in
  let c := on_job (on_run i (Run.set_output output)) c in
  on_res (fun r => sseWrite r "agent-complete"
                     (AgentCompleteData (Agent.id agent) (Some output))) c.

(** Lines 87-105: aggregate, store and close. *)
Definition finish (jobId requestText : string) (c : Call) : Call :=
  let final :=
    Result.mk "Task Result" requestText
      (String.concat newline (map summary_of (job_agents c))) artifacts in
  let c := on_job (Job.set_status "completed") c in
  let c := on_job (Job.set_result final) c in
  let c := on_res (fun r => sseWrite r "job-complete"
                              (JobCompleteData jobId (Some final))) c in
  on_res res_end c.

(** The [for]-[of] loop over the agents from the head of an iteration: it
    runs to the first [await], or through to the end of [executeJob] when
    no agent is left (an agent of zero steps never awaits). *)
Fixpoint run_agents (jobId requestText : string) (failRate : number)
    (agents : list Agent.t) (c : Call) : Call :=
  match agents with
  | [] => finish jobId requestText c
  | agent :: rest =>
      let agentRun :=
        Run.mk (Agent.id agent) (Agent.name agent) (Agent.role agent)
          "running" 0 [] None in
      let i := length (job_agents c) in
      let c := on_job (fun j => Job.set_agents (Job.agents j ++ [agentRun]) j) c in
      let c := on_res (fun r => sseWrite r "agent-start" (AgentStartData agentRun)) c in
      let totalSteps := Agent.steps agent in
      if (1 <=? totalSteps)%nat then
        set_awaiting
          (Some {| k_jobId := jobId; k_requestText := requestText;
                   k_failRate := failRate; k_agent := agent; k_run := i;
                   k_step := 1; k_rest := rest |}) c
      else run_agents jobId requestText failRate rest (complete_agent agent i c)
  end.

(** The timer of the [await] fires, and [Math.random()] returns [r] for
    the failure draw: the rest of the step, then on to the next [await] or
    to the end.  (The other draw of a step only sets the delay of the
    timer, that is, when this transition happens.) *)
Definition resume (k : Cont) (r : Q) (c : Call) : Call :=
  let agent := k_agent k in
  let totalSteps := Agent.steps agent in
  let step := k_step k in
  let c := set_awaiting None c in
  if js_lt (Fin r) (k_failRate k) then
    let c := on_job (on_run (k_run k) (Run.set_status "failed")) c in
    let message := error_message agent step in
    let c := on_res (fun out => sseWrite out "job-error"
                                  (JobErrorData message (Some (Agent.id agent)))) c in
    let c := on_job (Job.set_status "error") c in
    on_res res_end c
  else
    let progress := progress_at step totalSteps in
    let log := step_log agent step in
    let c := on_job (on_run (k_run k) (Run.set_progress progress)) c in
    let c := on_job (on_run (k_run k) (Run.push_log log)) c in
    let c := on_res (fun out => sseWrite out "agent-progress"
                                  (AgentProgressData (Agent.id agent) progress log)) c in
    if (step + 1 <=? totalSteps)%nat then
      set_awaiting
        (Some {| k_jobId := k_jobId k; k_requestText := k_requestText k;
                 k_failRate := k_failRate k; k_agent := agent; k_run := k_run k;
                 k_step := step + 1; k_rest := k_rest k |}) c
    else
      run_agents (k_jobId k) (k_requestText k) (k_failRate k) (k_rest k)
        (complete_agent agent (k_run k) c).

(** The object literal of line 49. *)
Definition new_job (jobId : string) (startTime : Z) : Job.t :=
  Job.mk jobId "running" startTime [] None.

(** Lines 49-50: the job object is created and [jobs.set(jobId, job)]
    makes it the record of [jobId], in place of any earlier one. *)
Definition register_job (jobId : string) (res : nat) (startTime : Z) (w : World) : World :=
  {| jobs := <[jobId := res]> (jobs w);
     calls := alter (set_job (new_job jobId startTime)) res (calls w) |}.

(** [GET /api/stream/:jobId], lines 127-138: the events of a replay. *)
Definition replay_agent (a : Run.t) : list sse_event :=
  [ {| event := "agent-start";
       data := AgentStartReplayData (Run.id a) (Run.name a) (Run.role a) |};
    {| event := "agent-progress";
       data := AgentProgressData (Run.id a) 100 (Run.name a ++ " completed") |};
    {| event := "agent-complete";
       data := AgentCompleteData (Run.id a) (Run.output a) |} ].

(** [a.steps || 1]: the stored records have no [steps], the plan of a
    replay gives every agent one step. *)
Definition replay_plan (existing : Job.t) : list Agent.t :=
  map (fun a => Agent.mk (Run.id a) (Run.name a) (Run.role a) 1) (Job.agents existing).

Definition replay_events (jobId : string) (existing : Job.t) : list sse_event :=
  [ {| event := "job-start"; data := JobStartData jobId (Job.createdAt existing) |};
    {| event := "plan"; data := PlanData (replay_plan existing) |} ]
  ++ flat_map replay_agent (Job.agents existing)
  ++ [ {| event := "job-complete"; data := JobCompleteData jobId (Job.result existing) |} ].

Definition replay (jobId : string) (existing : Job.t) (c : Call) : Call :=
  let c := fold_left (fun c e => on_res (fun r => sseWrite r (event e) (data e)) c)
             (replay_events jobId existing) c in
  on_res res_end c.

(** [POST /api/submit] *)
Inductive http_response : Type :=
  | BadRequest (error : string)
  | Ok (jobId : string).

(** [const { request } = req.body || {}]: the [request] property of the
    body, [None] for [undefined]. *)
Definition falsy (v : json) : bool :=
  match v with
  | JNull => true
  | JBool b => negb b
  | JNum (Fin q) => Qeq_bool q 0
  | JNum NaN => true
  | JNum _ => false
  | JStr s => String.eqb s ""
  | JArr _ => false
  | JObj _ => false
  end.

Fixpoint get_property (fields : list (string * json)) (key : string) : option json :=
  match fields with
  | [] => None
  | (k, v) :: fields' =>
      match get_property fields' key with
      | Some v' => Some v'
      | None => if String.eqb k key then Some v else None
      end
  end.

Definition request_of (body : option json) : option json :=
  match body with
  | Some (JObj fields) => get_property fields "request"
  | _ => None
  end.

(** [typeof v === 'string'] *)
Definition is_string (v : json) : bool :=
  match v with
  | JStr _ => true
  | _ => false
  end.

(** [nanoid] is the identity that the call of [nanoid()] returns. *)
Definition submit (body : option json) (nanoid : string) : http_response :=
  match request_of body with
  | None => BadRequest "Missing request string"
  | Some request =>
      if falsy request || negb (is_string request)
      then BadRequest "Missing request string"
      else Ok nanoid
  end.

(** ** The states of a run, written out

    What a call of [executeJob] has written and stored when its [done]
    agents are complete and [n] steps of the next one have passed.  These
    are the terms in which the properties of a run are stated; the
    theorems below show that the runner is in no other state. *)

(** The arguments of a call of [executeJob], with the time it read. *)
Record Args : Type := {
  x_jobId : string;
  x_requestText : string;
  x_failRate : number;
  x_now : Z
}.

Definition fresh_run (a : Agent.t) : Run.t :=
  Run.mk (Agent.id a) (Agent.name a) (Agent.role a) "running" 0 [] None.

Definition progress_after (a : Agent.t) (n : nat) : Z :=
  match n with
  | O => 0%Z
  | S _ => progress_at n (Agent.steps a)
  end.

(** The record of [a] after [n] of its steps. *)
Definition run_after (status : string) (a : Agent.t) (n : nat) : Run.t :=
  Run.mk (Agent.id a) (Agent.name a) (Agent.role a) status
    (progress_after a n) (map (step_log a) (seq 1 n)) None.

Definition completed_run (a : Agent.t) : Run.t :=
  Run.set_output (output_of a) (run_after "completed" a (Agent.steps a)).

Definition start_event (a : Agent.t) : sse_event :=
  {| event := "agent-start"; data := AgentStartData (fresh_run a) |}.

Definition progress_event (a : Agent.t) (step : nat) : sse_event :=
  {| event := "agent-progress";
     data := AgentProgressData (Agent.id a) (progress_at step (Agent.steps a))
               (step_log a step) |}.

Definition complete_event (a : Agent.t) : sse_event :=
  {| event := "agent-complete";
     data := AgentCompleteData (Agent.id a) (Some (output_of a)) |}.

Definition error_event (a : Agent.t) (step : nat) : sse_event :=
  {| event := "job-error";
     data := JobErrorData (error_message a step) (Some (Agent.id a)) |}.

Definition progress_events (a : Agent.t) (n : nat) : list sse_event :=
  map (progress_event a) (seq 1 n).

(** The events of an agent that completes. *)
Definition agent_events (a : Agent.t) : list sse_event :=
  start_event a :: progress_events a (Agent.steps a) ++ [complete_event a].

Definition header (x : Args) (plan : list Agent.t) : list sse_event :=
  [ {| event := "job-start"; data := JobStartData (x_jobId x) (x_now x) |};
    {| event := "plan"; data := PlanData plan |} ].

Definition final_result (x : Args) (plan : list Agent.t) : Result.t :=
  Result.mk "Task Result" (x_requestText x)
    (String.concat newline (map (fun a => Output.summary (output_of a)) plan))
    artifacts.

Definition complete_job_event (x : Args) (plan : list Agent.t) : sse_event :=
  {| event := "job-complete";
     data := JobCompleteData (x_jobId x) (Some (final_result x plan)) |}.

(** Where a run stands: awaiting the timer of step [n + 1] of [a], failed
    at that step, or complete. *)
Inductive phase : Type :=
  | Suspended (done : list Agent.t) (a : Agent.t) (n : nat) (rest : list Agent.t)
  | Failed (done : list Agent.t) (a : Agent.t) (n : nat) (rest : list Agent.t)
  | Completed.

Definition events_upto (x : Args) (plan done : list Agent.t) (a : Agent.t) (n : nat)
  : list sse_event :=
  header x plan ++ flat_map agent_events done ++ start_event a :: progress_events a n.

Definition completed_job (x : Args) (plan : list Agent.t) : Job.t :=
  Job.mk (x_jobId x) "completed" (x_now x) (map completed_run plan)
    (Some (final_result x plan)).

Definition call_in (x : Args) (plan : list Agent.t) (ph : phase) : Call :=
  match ph with
  | Suspended done a n rest =>
      {| res := {| written := events_upto x plan done a n; ended := false |};
         job := Some (Job.mk (x_jobId x) "running" (x_now x)
                        (map completed_run done ++ [run_after "running" a n]) None);
         awaiting := Some {| k_jobId := x_jobId x; k_requestText := x_requestText x;
                             k_failRate := x_failRate x; k_agent := a;
                             k_run := length done; k_step := S n; k_rest := rest |} |}
  | Failed done a n rest =>
      {| res := {| written := events_upto x plan done a n ++ [error_event a (S n)];
                   ended := true |};
         job := Some (Job.mk (x_jobId x) "error" (x_now x)
                        (map completed_run done ++ [run_after "failed" a n]) None);
         awaiting := None |}
  | Completed =>
      {| res := {| written := header x plan ++ flat_map agent_events plan
                              ++ [complete_job_event x plan];
                   ended := true |};
         job := Some (completed_job x plan);
         awaiting := None |}
  end.

(** The run between two agents, [done] complete: not a state in which it
    ever waits, the loop goes on from it. *)
Definition between (x : Args) (plan done : list Agent.t) : Call :=
  {| res := {| written := header x plan ++ flat_map agent_events done; ended := false |};
     job := Some (Job.mk (x_jobId x) "running" (x_now x) (map completed_run done) None);
     awaiting := None |}.

(** The phase the loop reaches from there, [rest] being left. *)
Fixpoint enter (done rest : list Agent.t) : phase :=
  match rest with
  | [] => Completed
  | a :: rest' =>
      if (1 <=? Agent.steps a)%nat then Suspended done a 0 rest'
      else enter (done ++ [a]) rest'
  end.

(** The phase after the timer fired with draw [r]. *)
Definition next_phase (x : Args) (r : Q) (ph : phase) : phase :=
  match ph with
  | Suspended done a n rest =>
      if js_lt (Fin r) (x_failRate x) then Failed done a n rest
      else if (S n + 1 <=? Agent.steps a)%nat then Suspended done a (S n) rest
      else enter (done ++ [a]) rest
  | _ => ph
  end.

(** The steps that have passed, and those of a whole plan. *)
Definition total_steps (plan : list Agent.t) : nat :=
  fold_right (fun a k => (Agent.steps a + k)%nat) 0%nat plan.

Definition passed (plan : list Agent.t) (ph : phase) : nat :=
  match ph with
  | Suspended done _ n _ => (total_steps done + n)%nat
  | Failed done _ n _ => (total_steps done + n)%nat
  | Completed => total_steps plan
  end.

(** Some draw of [Math.random()] passes, or fails, at rate [f]. *)
Definition can_pass (f : number) : Prop :=
  exists r, unit_draw r /\ js_lt (Fin r) f = false.

Definition can_fail (f : number) : Prop :=
  exists r, unit_draw r /\ js_lt (Fin r) f = true.

(** A phase that a run of [plan] at rate [f] can be in. *)
Definition phase_ok (f : number) (plan : list Agent.t) (ph : phase) : Prop :=
  ((0 < passed plan ph)%nat -> can_pass f) /\
  match ph with
  | Suspended done a n rest =>
      plan = (done ++ a :: rest)%list /\ (n < Agent.steps a)%nat
  | Failed done a n rest =>
      plan = (done ++ a :: rest)%list /\ (n < Agent.steps a)%nat /\ can_fail f
  | Completed => True
  end.

(** The statuses that a job may take after [s]. *)
Definition lifecycle (s s' : string) : Prop :=
  s' = s \/ (s = "running" /\ (s' = "completed" \/ s' = "error")).

(** The call of a replay of [existing]. *)
Definition replay_call (jobId : string) (existing : Job.t) : Call :=
  {| res := {| written := replay_events jobId existing; ended := true |};
     job := None;
     awaiting := None |}.

(** The names of a list of events, and a list of names with each run of
    one repeated name merged into a single occurrence. *)
Definition names (l : list sse_event) : list string := map event l.

Fixpoint squeeze (l : list string) : list string :=
  match l with
  | [] => []
  | x :: t =>
      match t with
      | [] => [x]
      | y :: _ => if String.eqb x y then squeeze t else x :: squeeze t
      end
  end.

Definition count_event (name : string) (l : list sse_event) : nat :=
  length (List.filter (fun e => String.eqb (event e) name) l).

(** The runner on a plan of its own: lines 49-85 with [agents] given, up
    to the first [await]; and the timer fired once for each draw of
    [draws], as long as the run awaits one. *)
Definition start_plan (x : Args) (plan : list Agent.t) : Call :=
  run_agents (x_jobId x) (x_requestText x) (x_failRate x) plan
    {| res := {| written := header x plan; ended := false |};
       job := Some (new_job (x_jobId x) (x_now x));
       awaiting := None |}.

Fixpoint drive (draws : list Q) (c : Call) : Call :=
  match draws with
  | [] => c
  | r :: draws' =>
      match awaiting c with
      | Some k => drive draws' (resume k r c)
      | None => c
      end
  end.

(** Following the specification of replay: the names of the events of an
    agent, and of a job of [n] agents. *)
Definition agent_names_spec : list string :=
  ["agent-start"; "agent-progress"; "agent-complete"].

Definition replay_names_spec {A} (agents : list A) : list string :=
  "job-start" :: "plan" :: flat_map (fun _ => agent_names_spec) agents
  ++ ["job-complete"].

(** The names of the events of a run that neither failed nor ended. *)
Definition progress_names : list string :=
  ["job-start"; "plan"; "agent-start"; "agent-progress"; "agent-complete"].

Definition is_failed (ph : phase) : bool :=
  match ph with
  | Failed _ _ _ _ => true
  | _ => false
  end.

(** An [agent-progress] event of the agent [id]. *)
Definition progress_of (id : string) (e : sse_event) : bool :=
  match data e with
  | AgentProgressData id' _ _ => String.eqb id' id
  | _ => false
  end.

(** Modelled from the spec: the id generator.  [nanoid] is an imported
    package, its code is not part of server.js; the words of the
    specification for what the submission handler obtains from it are
    "allocates a fresh unique job identity".  A generator is any function
    that, given the identities it has issued so far, returns one that is
    not among them. *)
Record generator : Type := {
  nanoid : list string -> string;
  nanoid_fresh : forall issued, nanoid issued ∉ issued
}.

(** The submission handler behind a generator: its response, and the
    identities issued once it has returned.  [nanoid()] is called on line
    113, past the guard: a submission that is refused draws no identity. *)
Definition submit_from (g : generator) (issued : list string) (body : option json)
  : http_response * list string :=
  match submit body (nanoid g issued) with
  | Ok jobId => (Ok jobId, jobId :: issued)
  | BadRequest e => (BadRequest e, issued)
  end.

(** The responses to a sequence of submissions, one after the other. *)
Fixpoint submissions (g : generator) (issued : list string) (bodies : list (option json))
  : list http_response :=
  match bodies with
  | [] => []
  | body :: bodies' =>
      fst (submit_from g issued body)
      :: submissions g (snd (submit_from g issued body)) bodies'
  end.

(** The identities that a list of responses hands out. *)
Definition submitted_ids (responses : list http_response) : list string :=
  flat_map (fun r => match r with
                     | Ok jobId => [jobId]
                     | BadRequest _ => []
                     end) responses.

(** A generator to run examples with: the first numeral not yet issued. *)
Definition first_unused : generator :=
  {| nanoid := fresh; nanoid_fresh := infinite_is_fresh |}.

(** ** The frames on the wire *)

(** [sseWrite], lines 17-18: the two chunks that are written for an event
    whose data serializes to [json] ([JSON.stringify(data)]). *)
Definition sseWrite_chunks (event json : string) : list string :=
  [ "event: " ++ event ++ newline; "data: " ++ json ++ newline ++ newline ].

(** What the client receives for a list of events, each given with the
    serialization of its data: the chunks, one after the other. *)
Definition wire (l : list (string * string)) : string :=
  fold_right String.append ""
    (flat_map (fun e => sseWrite_chunks (fst e) (snd e)) l).

(** A text without a line feed, as the event names of the server and the
    texts of [JSON.stringify] are. *)
Fixpoint one_line (s : string) : bool :=
  match s with
  | EmptyString => true
  | String c s' => negb (Ascii.eqb c (ascii_of_nat 10)) && one_line s'
  end.

(** The events whose data a replay takes over from the stored record. *)
Definition carried_over (e : sse_event) : bool :=
  String.eqb (event e) "job-start" || String.eqb (event e) "agent-complete"
  || String.eqb (event e) "job-complete".

(** ** The page, [newpublic/main.js] *)

(** The submit handler of the form, lines 149-155: the body that the page
    posts to [/api/submit], none when the handler returns at its guard
    [if (!request) return].  [trim] is [String.prototype.trim];
    [JSON.stringify({ request })] is read back by [express.json()] as an
    object with the one member [request]. *)
Definition form_submit (trim : string -> string) (value : string) : option json :=
  let request := trim value in
  if String.eqb request "" then None
  else Some (JObj [("request", JStr request)]).

(** A request reaches a handler of server.js through [express.json()] and
    the HTTP parser of node, packages whose code is not part of
    server.js.  They refuse a request before any handler runs: 413 for a
    body that [express.json()] finds too large (100 kB by default), 431
    for a request whose URL and headers are too long (16 KiB by default).
    What they let through is a parameter here: the bodies, and the stream
    URLs by identity and query text. *)
Record Transport : Type := {
  body_fits : json -> bool;
  url_fits : string -> string -> bool
}.

Inductive delivery (A : Type) : Type :=
  | Refused (status : Z)
  | Delivered (a : A).

Arguments Refused {A} status.
Arguments Delivered {A} a.

(** The answer to the [fetch] of the submit handler of the page, lines
    152-155; [nid] is the identity that [nanoid()] returns if the handler
    of the server is reached. *)
Definition post_submit (t : Transport) (body : json) (nid : string)
  : delivery http_response :=
  if body_fits t body then Delivered (submit (Some body) nid) else Refused 413.

(** A transport to run examples with: it lets through the texts of fewer
    than 1000 characters. *)
Definition short_texts : Transport :=
  {| body_fits := fun body =>
       match body with
       | JObj [(_, JStr s)] => (String.length s <? 1000)%nat
       | _ => true
       end;
     url_fits := fun _ query => (String.length query <? 1000)%nat |}.

(** [updateProgress], line 46: the percentage to which the bar is set,
    [Math.min(100, Math.max(0, progress))]. *)
Definition updateProgress_width (progress : number) : number :=
  Math_min (Fin 100) (Math_max (Fin 0) progress).

(** The progress of an [agent-progress] event is a percentage. *)
Definition progress_in_range (e : sse_event) : Prop :=
  forall id p log, data e = AgentProgressData id p log -> (0 <= p <= 100)%Z.

(** ** The server *)

Section Server.
Variable toLowerCase : string -> string.
Variable Number : string -> number.

(** [executeJob(jobId, requestText, res, { failRate })], from its call to
    its first [await] (or to its end); [now] is what [Date.now()] returns.
    [res] is the number of the request whose response it writes to. *)
Definition executeJob (jobId requestText : string) (res : nat)
    (failRate : number) (now : Z) (w : World) : World :=
  let agents := planAgents toLowerCase requestText in
  let startTime := now in
  let w := register_job jobId res startTime w in
  let w := on_call res (on_res (fun r => sseWrite r "job-start"
                                           (JobStartData jobId startTime))) w in
  let w := on_call res (on_res (fun r => sseWrite r "plan" (PlanData agents))) w in
  on_call res (run_agents jobId requestText failRate agents) w.

(** Lines 141-142: the text and the failure rate of a new run. *)
Definition text_of (q : qparam) : string :=
  match q with
  | QStr s => s
  | _ => "General business analysis request"
  end.

Definition fail_of (failRate : qparam) : number :=
  match failRate with
  | QStr s => Math_max (Fin 0) (Math_min (Fin 1) (Number s))
  | _ => Fin 0
  end.

(** [existing && existing.status === 'completed'] *)
Definition is_completed (existing : option Job.t) : bool :=
  match existing with
  | Some j => String.eqb (Job.status j) "completed"
  | None => false
  end.

(** [GET /api/stream/:jobId?q=..&failRate=..], up to the point where the
    handler returns.  The request is the next one of [calls].  (The
    [catch] of the handler has nothing to catch: no statement of
    [executeJob] throws on the values it is given here.) *)
Definition stream (jobId : string) (q failRate : qparam) (now : Z) (w : World) : World :=
  let res := length (calls w) in
  let existing := jobs_get w jobId in
  let w := {| jobs := jobs w;
              calls := calls w ++ [ {| res := {| written := []; ended := false |};
                                       job := None; awaiting := None |} ] |} in
  if is_completed existing then
    match existing with
    | Some j => on_call res (replay jobId j) w
    | None => w
    end
  else
    executeJob jobId (text_of q) res (fail_of failRate) now w.

(** The timer that the [res]-th request awaits fires. *)
Definition timer (res : nat) (r : Q) (w : World) : World :=
  match calls w !! res with
  | Some c =>
      match awaiting c with
      | Some k => on_call res (resume k r) w
      | None => w
      end
  | None => w
  end.

(** What happens to the server: a submission (the handler touches nothing
    of the state), a stream request, or the timer of a suspended run.
    Each carries what the environment supplies: the identity that
    [nanoid()] returns, the time, the failure draw. *)
Inductive action : Type :=
  | Submit (body : option json) (nanoid : string)
  | Stream (jobId : string) (q failRate : qparam) (now : Z)
  | Timer (res : nat) (r : Q).

Definition step (w : World) (a : action) : World :=
  match a with
  | Submit _ _ => w
  | Stream jobId q failRate now => stream jobId q failRate now w
  | Timer res r => timer res r w
  end.

Definition run (w : World) (l : list action) : World := fold_left step l w.

(** The draws are draws of [Math.random()]. *)
Definition valid (a : action) : Prop :=
  match a with
  | Timer _ r => unit_draw r
  | _ => True
  end.

Definition reachable (w : World) : Prop :=
  exists l, Forall valid l /\ w = run initial l.

(** ** The states of the server, written out *)

Definition plan_of (x : Args) : list Agent.t :=
  planAgents toLowerCase (x_requestText x).

(** [c] is the call [executeJob(x)] in phase [ph]. *)
Definition live_call (c : Call) (x : Args) (ph : phase) : Prop :=
  c = call_in x (plan_of x) ph /\ phase_ok (x_failRate x) (plan_of x) ph.

(** A call is a run of [executeJob], or the replay of a job that some run
    completed. *)
Definition call_ok (c : Call) : Prop :=
  (exists x ph, live_call c x ph) \/
  (exists jobId x, c = replay_call jobId (completed_job x (plan_of x))).

(** Every call is such a call, and [jobs] points to job objects, each
    under its own identity. *)
Definition world_ok (w : World) : Prop :=
  Forall call_ok (calls w) /\
  forall jobId i, jobs w !! jobId = Some i ->
    exists c j, calls w !! i = Some c /\ job c = Some j /\ Job.id j = jobId.

(** How often the timer of request [i] fires in [l]. *)
Fixpoint fires (i : nat) (l : list action) : nat :=
  match l with
  | [] => 0
  | Timer j _ :: l' => if Nat.eqb i j then S (fires i l') else fires i l'
  | _ :: l' => fires i l'
  end.

(** The arguments with which the stream handler calls [executeJob]. *)
Definition stream_args (jobId : string) (q failRate : qparam) (now : Z) : Args :=
  {| x_jobId := jobId; x_requestText := text_of q;
     x_failRate := fail_of failRate; x_now := now |}.

(** The phase of request [i] after [a], and after the actions of [l]. *)
Definition phase_step (i : nat) (x : Args) (ph : phase) (a : action) : phase :=
  match a with
  | Timer j r => if Nat.eqb i j then next_phase x r ph else ph
  | _ => ph
  end.

Definition phase_run (i : nat) (x : Args) (ph : phase) (l : list action) : phase :=
  fold_left (phase_step i x) l ph.

(** The [n]-th agent record of the job object of request [i]. *)
Definition run_at (w : World) (i n : nat) : option Run.t :=
  match calls w !! i with
  | Some c => job_agents c !! n
  | None => None
  end.

(** A stream was opened for [jobId] among the actions of [l]. *)
Definition streamed (jobId : string) (l : list action) : bool :=
  existsb (fun a => match a with
                    | Stream id _ _ _ => String.eqb id jobId
                    | _ => false
                    end) l.

Definition is_stream (a : action) : bool :=
  match a with
  | Stream _ _ _ _ => true
  | _ => false
  end.

(** [connectSSE(jobId, query)], lines 89-91: the stream request that the
    page opens; it sets [q] and no [failRate].  [now] is the time that
    the server reads when it serves the request. *)
Definition connectSSE (jobId query : string) (now : Z) : action :=
  Stream jobId (QStr query) QAbsent now.

(** The stream request of [connectSSE] as the server sees it: the state
    when the handler has returned, if the request is delivered to it. *)
Definition get_stream (t : Transport) (jobId query : string) (now : Z) (w : World)
  : delivery World :=
  if url_fits t jobId query then Delivered (step w (connectSSE jobId query now))
  else Refused 431.

(** * Properties *)

(** ** The planner *)

Lemma planAgents_cases requestText :
  planAgents toLowerCase requestText
  = ((if wants_finance (toLowerCase requestText) then [finance] else [])
     ++ [ Agent.mk "planner" "Planner" "Break down the request" 1;
          Agent.mk "researcher" "Researcher" "Gather data and sources" 3 ]
     ++ (if wants_engineer (toLowerCase requestText) then [engineer] else [])
     ++ [ Agent.mk "analyst" "Analyst" "Analyze trends and insights" 3;
          Agent.mk "visualizer" "Visualizer" "Create charts/tables" 2;
          Agent.mk "editor" "Editor" "Compose final structured report" 2 ])%list.
Proof.
  unfold planAgents.
  destruct (wants_finance _), (wants_engineer _); reflexivity.
Qed.

(** Every agent of a plan has one, two or three steps. *)
Lemma planAgents_steps requestText :
  Forall (fun a => (1 <= Agent.steps a <= 3)%nat) (planAgents toLowerCase requestText).
Proof.
  rewrite planAgents_cases.
  destruct (wants_finance _), (wants_engineer _); cbn;
    repeat (constructor; [cbn; lia|]); constructor.
Qed.

Lemma planAgents_ids_distinct requestText :
  NoDup (map Agent.id (planAgents toLowerCase requestText)).
Proof.
  rewrite planAgents_cases.
  destruct (wants_finance _), (wants_engineer _); cbn;
    apply (bool_decide_unpack _); vm_compute; reflexivity.
Qed.

Lemma planAgents_nonempty requestText :
  planAgents toLowerCase requestText <> [].
Proof.
  rewrite planAgents_cases. destruct (wants_finance _); discriminate.
Qed.

(** The baseline stages are in every plan. *)
Lemma planAgents_baseline requestText a :
  a ∈ baseAgents -> a ∈ planAgents toLowerCase requestText.
Proof.
  intros Ha. rewrite planAgents_cases.
  apply list_elem_of_In in Ha. apply list_elem_of_In. unfold baseAgents in Ha.
  destruct (wants_finance _), (wants_engineer _); cbn in *; tauto.
Qed.

(** ** Progress values *)

Lemma progress_at_full t : (1 <= t)%nat -> progress_at t t = 100%Z.
Proof.
  intros Ht. unfold progress_at, Math_round.
  assert (Hz : ~ (inject_Z (Z.of_nat t) == 0)%Q).
  { intros H. unfold Qeq in H. cbn in H. lia. }
  rewrite (Qfloor_comp _ (201 # 2)); [reflexivity|].
  field. exact Hz.
Qed.

Lemma progress_at_partial n t :
  (1 <= t <= 3)%nat -> (n < t)%nat -> (0 <= progress_at n t < 100)%Z.
Proof.
  intros Ht Hn.
  assert (Hc : (t = 1 \/ t = 2 \/ t = 3)%nat) by lia.
  destruct Hc as [-> | [-> | ->]];
    repeat (destruct n as [|n]; [vm_compute; split; [discriminate | reflexivity] |]);
    lia.
Qed.

Lemma progress_after_partial a n :
  (1 <= Agent.steps a <= 3)%nat -> (n < Agent.steps a)%nat ->
  (0 <= progress_after a n < 100)%Z.
Proof.
  intros Ht Hn. destruct n as [|n]; [cbn; lia|].
  cbn [progress_after]. by apply progress_at_partial.
Qed.

(** ** The runner, segment by segment *)

Ltac proj :=
  cbn [res job awaiting written ended fmap option_fmap option_map
       Job.id Job.status Job.createdAt Job.agents Job.result
       Job.set_status Job.set_agents Job.set_result
       Run.id Run.name Run.role Run.status Run.progress Run.logs Run.output
       Run.set_status Run.set_progress Run.push_log Run.set_output
       k_jobId k_requestText k_failRate k_agent k_run k_step k_rest
       x_jobId x_requestText x_failRate x_now
       sseWrite res_end jobs calls] in *.

Lemma alter_last {A} (f : A -> A) (l : list A) (x : A) :
  alter f (length l) (l ++ [x])%list = (l ++ [f x])%list.
Proof. rewrite <- (Nat.add_0_r (length l)). by rewrite alter_app_r. Qed.

Lemma summaries_completed plan :
  map summary_of (map completed_run plan)
  = map (fun a => Output.summary (output_of a)) plan.
Proof. rewrite map_map. reflexivity. Qed.

(** The last step of [a] has passed: lines 80-84 complete it. *)
Lemma complete_agent_last x plan done a :
  complete_agent a (length done)
    {| res := {| written := events_upto x plan done a (Agent.steps a); ended := false |};
       job := Some (Job.mk (x_jobId x) "running" (x_now x)
                      (map completed_run done ++ [run_after "running" a (Agent.steps a)]) None);
       awaiting := None |}
  = between x plan (done ++ [a]).
Proof.
  unfold complete_agent, between, on_res, on_job, on_run. proj.
  rewrite <- (length_map completed_run done) at 1 2. rewrite !alter_last.
  rewrite flat_map_app, map_app. unfold events_upto, agent_events. cbn [flat_map map].
  rewrite app_nil_r, <- !app_assoc. reflexivity.
Qed.

(** The loop, entered with [done] complete and [rest] to go. *)
Lemma run_agents_between x plan rest : forall done,
  plan = (done ++ rest)%list ->
  run_agents (x_jobId x) (x_requestText x) (x_failRate x) rest (between x plan done)
  = call_in x plan (enter done rest).
Proof.
  induction rest as [|a rest IH]; intros done Hplan.
  - rewrite app_nil_r in Hplan. subst done.
    cbn [run_agents enter call_in]. unfold finish, between, job_agents, on_job, on_res.
    proj. rewrite summaries_completed. reflexivity.
  - cbn [run_agents enter]. destruct (1 <=? Agent.steps a)%nat eqn:Hs.
    + unfold call_in, between, set_awaiting, on_res, on_job, job_agents, events_upto. proj.
      rewrite length_map, <- !app_assoc. reflexivity.
    + rewrite <- IH by (rewrite <- app_assoc; exact Hplan).
      f_equal. apply Nat.leb_gt in Hs. assert (Agent.steps a = 0)%nat as H0 by lia.
      rewrite <- complete_agent_last. rewrite H0.
      unfold between, on_res, on_job, job_agents, events_upto. proj.
      rewrite length_map, <- !app_assoc. reflexivity.
Qed.

(** A timer fires in a suspended run. *)
Lemma resume_suspended x plan done a n rest r :
  plan = (done ++ a :: rest)%list ->
  (n < Agent.steps a)%nat ->
  resume {| k_jobId := x_jobId x; k_requestText := x_requestText x;
            k_failRate := x_failRate x; k_agent := a;
            k_run := length done; k_step := S n; k_rest := rest |} r
    (call_in x plan (Suspended done a n rest))
  = call_in x plan (next_phase x r (Suspended done a n rest)).
Proof.
  intros Hplan Hn. unfold resume. proj. cbn [next_phase].
  destruct (js_lt (Fin r) (x_failRate x)).
  - unfold call_in, set_awaiting, on_res, on_job, on_run. proj.
    rewrite <- (length_map completed_run done) at 1. rewrite alter_last. reflexivity.
  - assert (Hstep :
      on_res (fun r0 => sseWrite r0 "agent-progress"
                (AgentProgressData (Agent.id a) (progress_at (S n) (Agent.steps a))
                   (step_log a (S n))))
        (on_job (on_run (length done) (Run.push_log (step_log a (S n))))
           (on_job (on_run (length done)
                      (Run.set_progress (progress_at (S n) (Agent.steps a))))
              (set_awaiting None (call_in x plan (Suspended done a n rest)))))
      = {| res := {| written := events_upto x plan done a (S n); ended := false |};
           job := Some (Job.mk (x_jobId x) "running" (x_now x)
                    (map completed_run done ++ [run_after "running" a (S n)]) None);
           awaiting := None |}).
    { unfold call_in, set_awaiting, on_res, on_job, on_run. proj.
      rewrite <- (length_map completed_run done) at 1 2. rewrite !alter_last.
      unfold events_upto, progress_events, run_after. proj.
      rewrite !seq_S, !map_app. cbn [map Nat.add progress_after].
      rewrite <- !app_assoc. reflexivity. }
    rewrite Hstep. clear Hstep.
    destruct (S n + 1 <=? Agent.steps a)%nat eqn:Hmore.
    + unfold call_in, set_awaiting. proj. rewrite Nat.add_1_r. reflexivity.
    + apply Nat.leb_gt in Hmore. assert (S n = Agent.steps a) as -> by lia.
      rewrite complete_agent_last. apply run_agents_between.
      rewrite <- app_assoc. exact Hplan.
Qed.

(** Writing a list of events to a response that has not ended. *)
Lemma write_all l : forall c,
  ended (res c) = false ->
  fold_left (fun c e => on_res (fun r => sseWrite r (event e) (data e)) c) l c
  = {| res := {| written := written (res c) ++ l; ended := false |};
       job := job c; awaiting := awaiting c |}.
Proof.
  induction l as [|e l IH]; intros c Hc.
  - cbn. rewrite app_nil_r. destruct c as [[wr en] j k]. cbn in *. by subst.
  - cbn [fold_left]. rewrite IH.
    + unfold on_res, sseWrite. rewrite Hc. proj. rewrite <- app_assoc.
      destruct e. reflexivity.
    + unfold on_res, sseWrite. rewrite Hc. reflexivity.
Qed.

Lemma replay_fresh jobId existing :
  replay jobId existing
    {| res := {| written := []; ended := false |}; job := None; awaiting := None |}
  = replay_call jobId existing.
Proof. unfold replay. rewrite write_all by reflexivity. reflexivity. Qed.

(** ** Phases *)

Lemma total_steps_app l1 l2 :
  total_steps (l1 ++ l2) = (total_steps l1 + total_steps l2)%nat.
Proof.
  unfold total_steps. induction l1 as [|a l1 IH]; cbn; [reflexivity|].
  rewrite IH. lia.
Qed.

Lemma passed_enter plan rest : forall done,
  plan = (done ++ rest)%list -> passed plan (enter done rest) = total_steps done.
Proof.
  induction rest as [|a rest IH]; intros done Hplan; cbn [enter].
  - rewrite app_nil_r in Hplan. by subst.
  - destruct (1 <=? Agent.steps a)%nat eqn:Hs; [cbn; lia|].
    rewrite IH by (by rewrite <- app_assoc).
    apply Nat.leb_gt in Hs. rewrite total_steps_app. cbn. lia.
Qed.

Lemma phase_ok_enter f plan rest : forall done,
  plan = (done ++ rest)%list ->
  ((0 < total_steps done)%nat -> can_pass f) ->
  phase_ok f plan (enter done rest).
Proof.
  intros done Hplan Hpass. split.
  - by rewrite (passed_enter plan rest done Hplan).
  - clear Hpass. revert done Hplan.
    induction rest as [|a rest IH]; intros done Hplan; cbn [enter]; [exact I|].
    destruct (1 <=? Agent.steps a)%nat eqn:Hs.
    + apply Nat.leb_le in Hs. split; [exact Hplan | lia].
    + apply IH. by rewrite <- app_assoc.
Qed.

Lemma phase_ok_next x plan ph r :
  phase_ok (x_failRate x) plan ph -> unit_draw r ->
  phase_ok (x_failRate x) plan (next_phase x r ph).
Proof.
  intros [Hpass Hshape] Hr.
  destruct ph as [done a n rest | done a n rest |]; cbn [next_phase]; [|by split..].
  destruct Hshape as [Hplan Hn].
  destruct (js_lt (Fin r) (x_failRate x)) eqn:Hdraw.
  - split; [exact Hpass|]. split; [exact Hplan|]. split; [exact Hn|]. by exists r.
  - assert (can_pass (x_failRate x)) as Hcan by (by exists r).
    destruct (S n + 1 <=? Agent.steps a)%nat eqn:Hmore.
    + apply Nat.leb_le in Hmore. split; [done|]. split; [exact Hplan | lia].
    + apply phase_ok_enter; [by rewrite <- app_assoc | done].
Qed.

(** ** The transitions of the server *)

Lemma on_call_lookup i f w c :
  calls w !! i = Some c -> calls (on_call i f w) !! i = Some (f c).
Proof.
  intros H. unfold on_call. proj. by rewrite list_lookup_alter_eq, H.
Qed.

Lemma on_call_lookup_ne i j f w :
  i <> j -> calls (on_call i f w) !! j = calls w !! j.
Proof. intros H. unfold on_call. proj. by apply list_lookup_alter_ne. Qed.

Lemma call_in_job x plan ph :
  exists j, job (call_in x plan ph) = Some j /\ Job.id j = x_jobId x.
Proof. destruct ph; eexists; split; reflexivity. Qed.

Lemma timer_jobs i r w : jobs (timer i r w) = jobs w.
Proof.
  unfold timer. destruct (calls w !! i) as [c|]; [|reflexivity].
  destruct (awaiting c); reflexivity.
Qed.

Lemma timer_lookup_ne i j r w :
  i <> j -> calls (timer i r w) !! j = calls w !! j.
Proof.
  intros H. unfold timer. destruct (calls w !! i) as [c|]; [|reflexivity].
  destruct (awaiting c); [|reflexivity]. by apply on_call_lookup_ne.
Qed.

(** A call that does not await has no timer. *)
Lemma timer_idle i r w c :
  calls w !! i = Some c -> awaiting c = None -> timer i r w = w.
Proof. intros H Hk. unfold timer. by rewrite H, Hk. Qed.

Lemma timer_lookup i r w x plan ph :
  calls w !! i = Some (call_in x plan ph) ->
  phase_ok (x_failRate x) plan ph ->
  calls (timer i r w) !! i = Some (call_in x plan (next_phase x r ph)).
Proof.
  intros H [_ Hshape].
  destruct ph as [done a n rest | done a n rest |].
  - destruct Hshape as [Hplan Hn]. unfold timer. rewrite H.
    cbn [call_in awaiting]. erewrite on_call_lookup by exact H.
    f_equal. by apply resume_suspended.
  - by rewrite (timer_idle i r w _ H).
  - by rewrite (timer_idle i r w _ H).
Qed.

Lemma stream_replay jobId q failRate now w existing :
  jobs_get w jobId = Some existing ->
  Job.status existing = "completed" ->
  stream jobId q failRate now w
  = {| jobs := jobs w; calls := calls w ++ [replay_call jobId existing] |}.
Proof.
  intros Hget Hst. unfold stream. rewrite Hget. cbn [is_completed]. rewrite Hst.
  cbn [String.eqb Ascii.eqb Bool.eqb andb]. unfold on_call. proj.
  by rewrite alter_last, replay_fresh.
Qed.

Lemma stream_live jobId q failRate now w :
  is_completed (jobs_get w jobId) = false ->
  stream jobId q failRate now w
  = {| jobs := <[jobId := length (calls w)]> (jobs w);
       calls := calls w
                ++ [ call_in (stream_args jobId q failRate now)
                       (plan_of (stream_args jobId q failRate now))
                       (enter [] (plan_of (stream_args jobId q failRate now))) ] |}.
Proof.
  intros Hnot. unfold stream. rewrite Hnot.
  unfold executeJob, register_job, on_call. proj. rewrite !alter_last.
  f_equal. f_equal. f_equal.
  apply (run_agents_between (stream_args jobId q failRate now) _ _ []).
  reflexivity.
Qed.

(** A request adds one call and leaves the others as they are. *)
Lemma stream_lookup_old jobId q failRate now w i :
  (i < length (calls w))%nat ->
  calls (stream jobId q failRate now w) !! i = calls w !! i.
Proof.
  intros Hi. destruct (is_completed (jobs_get w jobId)) eqn:Hc.
  - unfold is_completed in Hc. destruct (jobs_get w jobId) as [j|] eqn:Hget; [|done].
    apply String.eqb_eq in Hc. rewrite (stream_replay _ _ _ _ _ j Hget Hc). proj.
    by apply lookup_app_l.
  - rewrite stream_live by exact Hc. proj. by apply lookup_app_l.
Qed.

Lemma step_lookup_idle w a i c :
  calls w !! i = Some c -> awaiting c = None -> calls (step w a) !! i = Some c.
Proof.
  intros H Hk. destruct a as [body nid | jobId q failRate now | j r]; cbn [step].
  - exact H.
  - rewrite stream_lookup_old; [exact H | by eapply lookup_lt_Some].
  - destruct (decide (j = i)) as [->|Hne].
    + by rewrite (timer_idle i r w c H Hk).
    + by rewrite timer_lookup_ne.
Qed.

(** A run moves only when its own timer fires. *)
Lemma step_lookup w a i x ph :
  calls w !! i = Some (call_in x (plan_of x) ph) ->
  phase_ok (x_failRate x) (plan_of x) ph ->
  calls (step w a) !! i = Some (call_in x (plan_of x) (phase_step i x ph a)).
Proof.
  intros H Hok. destruct a as [body nid | jobId q failRate now | j r];
    cbn [step phase_step].
  - exact H.
  - rewrite stream_lookup_old; [exact H | by eapply lookup_lt_Some].
  - destruct (Nat.eqb_spec i j) as [<-|Hne].
    + by apply timer_lookup.
    + rewrite timer_lookup_ne by congruence. exact H.
Qed.

Lemma phase_ok_step i x ph a :
  phase_ok (x_failRate x) (plan_of x) ph -> valid a ->
  phase_ok (x_failRate x) (plan_of x) (phase_step i x ph a).
Proof.
  intros Hok Ha. destruct a as [body nid | jobId q failRate now | j r];
    cbn [phase_step]; [done..|].
  destruct (Nat.eqb i j); [|done]. by apply phase_ok_next.
Qed.

Lemma live_call_step w a i c x ph :
  calls w !! i = Some c -> live_call c x ph -> valid a ->
  exists c', calls (step w a) !! i = Some c'
             /\ live_call c' x (phase_step i x ph a).
Proof.
  intros H [-> Hok] Ha. eexists. split; [by apply step_lookup|].
  split; [reflexivity | by apply phase_ok_step].
Qed.

Lemma live_call_run l : forall w i c x ph,
  calls w !! i = Some c -> live_call c x ph -> Forall valid l ->
  exists c', calls (run w l) !! i = Some c'
             /\ live_call c' x (phase_run i x ph l).
Proof.
  induction l as [|a l IH]; intros w i c x ph H Hlive Hl; cbn.
  - by exists c.
  - inversion Hl as [|? ? Ha Hl']; subst.
    destruct (live_call_step w a i c x ph H Hlive Ha) as (c' & H' & Hlive').
    exact (IH _ _ _ _ _ H' Hlive' Hl').
Qed.

Lemma run_lookup_idle l : forall w i c,
  calls w !! i = Some c -> awaiting c = None -> calls (run w l) !! i = Some c.
Proof.
  induction l as [|a l IH]; intros w i c H Hk; cbn; [exact H|].
  apply IH; [|exact Hk]. by apply step_lookup_idle.
Qed.

(** ** The invariant of the server *)

Lemma call_ok_step w a i c :
  calls w !! i = Some c -> call_ok c -> valid a ->
  exists c', calls (step w a) !! i = Some c' /\ call_ok c'
             /\ (forall j, job c = Some j ->
                   exists j', job c' = Some j' /\ Job.id j' = Job.id j).
Proof.
  intros H [(x & ph & Hlive) | (jobId & x & ->)] Ha.
  - destruct (live_call_step w a i c x ph H Hlive Ha) as (c' & H' & Hlive').
    exists c'. split; [exact H'|]. split; [left; by exists x, (phase_step i x ph a)|].
    intros j Hj. destruct Hlive as [-> _], Hlive' as [-> _].
    destruct (call_in_job x (plan_of x) ph) as (j0 & Hj0 & Hid0).
    destruct (call_in_job x (plan_of x) (phase_step i x ph a)) as (j1 & Hj1 & Hid1).
    exists j1. split; [exact Hj1|]. congruence.
  - eexists. split; [by apply step_lookup_idle|].
    split; [right; by exists jobId, x|]. intros j Hj. discriminate.
Qed.

Lemma jobs_get_completed w jobId existing :
  world_ok w -> jobs_get w jobId = Some existing ->
  Job.status existing = "completed" ->
  exists i x, jobs w !! jobId = Some i
              /\ calls w !! i = Some (call_in x (plan_of x) Completed)
              /\ existing = completed_job x (plan_of x).
Proof.
  intros [Hcalls _] Hget Hst. unfold jobs_get in Hget.
  destruct (jobs w !! jobId) as [i|] eqn:Hi; [|done].
  destruct (calls w !! i) as [c|] eqn:Hc; [|done].
  rewrite Forall_lookup in Hcalls.
  destruct (Hcalls i c Hc) as [(x & ph & -> & _) | (jid & x & ->)]; [|done].
  exists i, x. split; [reflexivity|].
  destruct ph; cbn in Hget; injection Hget as <-; cbn in Hst; try discriminate.
  by split.
Qed.

Lemma world_ok_initial : world_ok initial.
Proof.
  split; [constructor|]. intros jobId i H. unfold initial in H. proj.
  by rewrite lookup_empty in H.
Qed.

Lemma world_ok_step w a : world_ok w -> valid a -> world_ok (step w a).
Proof.
  intros Hw Ha. pose proof Hw as [Hcalls Hjobs].
  assert (Hold : forall jobId i, jobs w !! jobId = Some i ->
            exists c j, calls (step w a) !! i = Some c /\ job c = Some j
                        /\ Job.id j = jobId).
  { intros jobId i Hi. destruct (Hjobs jobId i Hi) as (c & j & Hc & Hj & Hid).
    rewrite Forall_lookup in Hcalls.
    destruct (call_ok_step w a i c Hc (Hcalls i c Hc) Ha) as (c' & Hc' & _ & Hjob).
    destruct (Hjob j Hj) as (j' & Hj' & Hid'). exists c', j'. by rewrite Hid'. }
  assert (Holdcalls : forall i c, calls w !! i = Some c ->
            exists c', calls (step w a) !! i = Some c' /\ call_ok c').
  { intros i c Hc. rewrite Forall_lookup in Hcalls.
    destruct (call_ok_step w a i c Hc (Hcalls i c Hc) Ha) as (c' & Hc' & Hok & _).
    by exists c'. }
  destruct a as [body nid | jobId q failRate now | j r].
  - exact Hw.
  - cbn [step] in *. destruct (is_completed (jobs_get w jobId)) eqn:Hdone.
    + unfold is_completed in Hdone.
      destruct (jobs_get w jobId) as [existing|] eqn:Hget; [|done].
      apply String.eqb_eq in Hdone.
      rewrite (stream_replay _ _ _ _ _ existing Hget Hdone) in *. proj. split.
      * apply Forall_app. split; [exact Hcalls|]. constructor; [|constructor].
        destruct (jobs_get_completed w jobId existing Hw Hget Hdone)
          as (i & x & _ & _ & ->).
        right. by exists jobId, x.
      * exact Hold.
    + rewrite stream_live in * by exact Hdone. proj. split.
      * apply Forall_app. split; [exact Hcalls|]. constructor; [|constructor].
        left. eexists _, _. split; [reflexivity|].
        apply phase_ok_enter; [reflexivity | cbn; lia].
      * intros jobId' i Hi. proj. destruct (decide (jobId = jobId')) as [<-|Hne].
        -- rewrite lookup_insert_eq in Hi. injection Hi as <-.
           destruct (call_in_job (stream_args jobId q failRate now)
                       (plan_of (stream_args jobId q failRate now))
                       (enter [] (plan_of (stream_args jobId q failRate now))))
             as (j & Hj & Hid).
           eexists _, j. split; [|by split].
           rewrite lookup_app_r by lia. by rewrite Nat.sub_diag.
        -- rewrite lookup_insert_ne in Hi by exact Hne. by apply Hold.
  - cbn [step] in *. split.
    + apply Forall_lookup. intros i c' Hc'.
      destruct (calls w !! i) as [c|] eqn:Hc.
      * destruct (Holdcalls i c Hc) as (c'' & Hc'' & Hok). congruence.
      * destruct (decide (j = i)) as [->|Hne].
        -- unfold timer in Hc'. rewrite Hc in Hc'. congruence.
        -- rewrite timer_lookup_ne in Hc' by exact Hne. congruence.
    + rewrite timer_jobs. exact Hold.
Qed.

Lemma world_ok_run l : forall w, world_ok w -> Forall valid l -> world_ok (run w l).
Proof.
  induction l as [|a l IH]; intros w Hw Hl; cbn; [exact Hw|].
  inversion Hl; subst. apply IH; [by apply world_ok_step | done].
Qed.

Lemma reachable_ok w : reachable w -> world_ok w.
Proof.
  intros (l & Hl & ->). apply world_ok_run; [apply world_ok_initial | exact Hl].
Qed.

Lemma reachable_run w l : reachable w -> Forall valid l -> reachable (run w l).
Proof.
  intros (l0 & Hl0 & ->) Hl. exists (l0 ++ l)%list. split; [by apply Forall_app|].
  unfold run. by rewrite fold_left_app.
Qed.

(** ** The planner's keyword rules *)

(** C5: if the case-folded request contains "code" or "api", the engineer
    stage is in the plan strictly after the first two baseline stages
    (breakdown and research), immediately after the second; if it contains
    "financial" or "quarter", the finance stage is the first of the plan;
    and when both rules fire the engineer still comes immediately after
    baseline stage 2, one place further down the plan (at index 3, not 2)
    because of the finance stage in front. *)
Theorem planAgents_keyword_stages requestText :
  let lower := toLowerCase requestText in
  let plan := planAgents toLowerCase requestText in
  (includes lower "code" || includes lower "api" = true ->
     exists i j, plan !! i = baseAgents !! 0%nat /\ plan !! j = baseAgents !! 1%nat
                 /\ plan !! S j = Some engineer /\ (i < j)%nat)
  /\ (includes lower "financial" || includes lower "quarter" = true ->
        plan !! 0%nat = Some finance)
  /\ (includes lower "code" || includes lower "api" = true ->
      includes lower "financial" || includes lower "quarter" = true ->
        plan = (finance :: take 2 baseAgents ++ engineer :: drop 2 baseAgents)%list
        /\ plan !! 2%nat = baseAgents !! 1%nat /\ plan !! 3%nat = Some engineer).
Proof.
  intros lower plan. subst plan. unfold planAgents. fold lower.
  change (includes lower "code" || includes lower "api") with (wants_engineer lower).
  change (includes lower "financial" || includes lower "quarter") with (wants_finance lower).
  destruct (wants_engineer lower), (wants_finance lower);
    (split; [|split]); try discriminate; intros; try (repeat split; reflexivity).
  - exists 1%nat, 2%nat. repeat split; [reflexivity..|lia].
  - exists 0%nat, 1%nat. repeat split; [reflexivity..|lia].
Qed.

(** ** The submission handler *)

Lemma submit_ok_iff body nid :
  submit body nid = Ok nid
  <-> exists s, request_of body = Some (JStr s) /\ s <> "".
Proof.
  unfold submit. split.
  - destruct (request_of body) as [v|]; [|discriminate].
    destruct v as [| b | n | s | items | fields]; cbn;
      try discriminate; try (destruct n as [|q| |]; try destruct (Qeq_bool q 0));
      try (destruct b); try discriminate.
    destruct s as [|ch s]; cbn; [discriminate|]. intros _. by eexists.
  - intros (s & -> & Hs). destruct s; [done|reflexivity].
Qed.

Lemma submit_returns_nanoid body nid jobId : submit body nid = Ok jobId -> jobId = nid.
Proof.
  unfold submit. destruct (request_of body) as [v|]; [|discriminate].
  destruct (falsy v || negb (is_string v)); [discriminate|]. by intros [= ->].
Qed.

(** The identities of a sequence of submissions are new and distinct. *)
Lemma submissions_fresh g bodies : forall issued,
  NoDup (submitted_ids (submissions g issued bodies))
  /\ forall jobId, jobId ∈ submitted_ids (submissions g issued bodies) -> jobId ∉ issued.
Proof.
  induction bodies as [|body bodies IH]; intros issued.
  - split; [constructor | intros jobId Hin; by apply elem_of_nil in Hin].
  - cbn [submissions submitted_ids flat_map]. fold (submitted_ids).
    unfold submit_from at 1 2.
    destruct (submit body (nanoid g issued)) as [e | id] eqn:Hsub; cbn [fst snd app].
    + unfold submit_from. rewrite Hsub. cbn [snd]. apply IH.
    + unfold submit_from. rewrite Hsub. cbn [snd].
      apply submit_returns_nanoid in Hsub as ->.
      destruct (IH (nanoid g issued :: issued)) as [Hnd Hnew]. split.
      * apply NoDup_cons. split; [|exact Hnd]. intros Hin.
        apply (Hnew _ Hin). left.
      * intros jobId Hin. apply elem_of_cons in Hin as [-> | Hin].
        { apply nanoid_fresh. }
        intros Hold. apply (Hnew _ Hin). by right.
Qed.

(** C8, amended: the submission handler answers with the client error if
    and only if the request property is absent, is not a string, or is the
    empty string, and then draws no identity; otherwise it allocates an
    identity, the one that its call of the generator returns, and answers
    with it: an identity that was not issued before (fresh), so that the
    identities of any sequence of submissions are pairwise distinct
    (unique); and a submission changes nothing of the state of the server:
    no job is registered and no run starts. *)
Theorem submit_validation (g : generator) issued body :
  (fst (submit_from g issued body) = BadRequest "Missing request string"
   <-> request_of body = None
       \/ (exists v, request_of body = Some v /\ is_string v = false)
       \/ request_of body = Some (JStr ""))
  /\ (fst (submit_from g issued body) = BadRequest "Missing request string" ->
      snd (submit_from g issued body) = issued)
  /\ (fst (submit_from g issued body) <> BadRequest "Missing request string" ->
      exists jobId,
        submit_from g issued body = (Ok jobId, jobId :: issued)
        /\ jobId = nanoid g issued /\ jobId ∉ issued)
  /\ (forall w, step w (Submit body (nanoid g issued)) = w)
  /\ (forall bodies,
        NoDup (submitted_ids (submissions g issued bodies))
        /\ forall jobId, jobId ∈ submitted_ids (submissions g issued bodies) ->
             jobId ∉ issued).
Proof.
  assert (Hfst : fst (submit_from g issued body) = submit body (nanoid g issued)).
  { unfold submit_from. by destruct (submit body (nanoid g issued)). }
  split; [|split; [|split; [|split]]].
  - rewrite Hfst. unfold submit. destruct (request_of body) as [v|]; [|by split; [left|]].
    split.
    + intros H. destruct v as [| b | n | s | items | fields];
        try (right; left; eexists; by split).
      right; right. destruct s; [reflexivity | discriminate].
    + intros [H | [(v' & [= <-] & Hv) | [= ->]]]; [discriminate| |reflexivity].
      by rewrite Hv, orb_true_r.
  - unfold submit_from. by destruct (submit body (nanoid g issued)).
  - rewrite Hfst. intros Hok. exists (nanoid g issued).
    split; [|split; [reflexivity | apply nanoid_fresh]].
    unfold submit_from, submit in *. destruct (request_of body) as [v|]; [|done].
    by destruct (falsy v || negb (is_string v)).
  - reflexivity.
  - intros bodies. apply submissions_fresh.
Qed.

(** ** The failure rate of a stream request *)

(** The failure rate that the stream handler computes lies in [0, 1]
    exactly when [Number] makes a number of the parameter; otherwise it is
    NaN, and no draw is below NaN. *)
Lemma fail_of_in_unit_interval s :
  in_unit_interval (fail_of (QStr s)) <-> Number s <> NaN.
Proof.
  unfold fail_of. destruct (Number s) as [|q| |] eqn:Hn; cbn.
  - split; [done | congruence].
  - split; [discriminate|]. intros _. unfold Qltb.
    destruct (Qle_bool 1 q) eqn:H1; cbn.
    + destruct (Qle_bool 1 0) eqn:H2; [apply Qle_bool_iff in H2; by compute in H2|].
      cbn. split; [discriminate | apply Qle_refl].
    + destruct (Qle_bool q 0) eqn:H0; cbn.
      * split; [apply Qle_refl | discriminate].
      * split.
        -- apply Qnot_lt_le. intros Hlt. apply Qlt_le_weak, Qle_bool_iff in Hlt. congruence.
        -- apply Qnot_lt_le. intros Hlt. apply Qlt_le_weak, Qle_bool_iff in Hlt. congruence.
  - split; [discriminate|]. intros _. split; [discriminate | apply Qle_refl].
  - split; [discriminate|]. intros _. split; [apply Qle_refl | discriminate].
Qed.

Lemma fail_of_NaN s : Number s = NaN -> fail_of (QStr s) = NaN.
Proof. intros H. unfold fail_of. by rewrite H. Qed.

Lemma never_below_NaN r : js_lt (Fin r) NaN = false.
Proof. reflexivity. Qed.

(** ** The registry *)

Lemma step_jobs_completed w a jobId :
  is_completed (jobs_get w jobId) = true ->
  jobs (step w a) !! jobId = jobs w !! jobId.
Proof.
  intros Hdone. destruct a as [body nid | jobId' q failRate now | j r]; cbn [step].
  - reflexivity.
  - destruct (is_completed (jobs_get w jobId')) eqn:Hdone'.
    + unfold is_completed in Hdone'.
      destruct (jobs_get w jobId') as [existing|] eqn:Hget; [|done].
      apply String.eqb_eq in Hdone'.
      by rewrite (stream_replay _ _ _ _ _ existing Hget Hdone').
    + rewrite stream_live by exact Hdone'. proj.
      apply lookup_insert_ne. intros ->. congruence.
  - by rewrite timer_jobs.
Qed.

Lemma jobs_get_step_completed w a jobId j :
  world_ok w -> jobs_get w jobId = Some j -> Job.status j = "completed" ->
  jobs_get (step w a) jobId = Some j.
Proof.
  intros Hw Hget Hst.
  destruct (jobs_get_completed w jobId j Hw Hget Hst) as (i & x & Hi & Hc & ->).
  unfold jobs_get. rewrite step_jobs_completed, Hi.
  - by rewrite (step_lookup_idle w a i _ Hc).
  - by rewrite Hget.
Qed.

(** C7, amended: the record of a job whose status is 'completed' is
    immutable: whatever happens afterwards (submissions, streams opened
    against this or another identity, timers of other runs), the registry
    returns the same record for the identity. *)
Theorem completed_record_immutable w jobId j l :
  reachable w -> Forall valid l ->
  jobs_get w jobId = Some j -> Job.status j = "completed" ->
  jobs_get (run w l) jobId = Some j.
Proof.
  intros Hw Hl. apply reachable_ok in Hw. revert w Hw.
  induction Hl as [|a l Ha Hl IH]; intros w Hw Hget Hst; cbn; [exact Hget|].
  apply IH; [by apply world_ok_step | | exact Hst].
  by apply jobs_get_step_completed.
Qed.

(** The first phase of a run: the planner's first agent awaits the timer
    of its first step. *)
Lemma enter_plan x :
  exists a rest, plan_of x = a :: rest
                 /\ enter [] (plan_of x) = Suspended [] a 0 rest.
Proof.
  unfold plan_of. pose proof (planAgents_steps (x_requestText x)) as Hs.
  pose proof (planAgents_nonempty (x_requestText x)) as Hne.
  destruct (planAgents toLowerCase (x_requestText x)) as [|a rest]; [done|].
  exists a, rest. split; [reflexivity|]. cbn [enter].
  apply Forall_cons in Hs as [[Ha _] _].
  apply Nat.leb_le in Ha. by rewrite Ha.
Qed.

Lemma call_status_step i x ph a j j' :
  job (call_in x (plan_of x) ph) = Some j ->
  job (call_in x (plan_of x) (phase_step i x ph a)) = Some j' ->
  lifecycle (Job.status j) (Job.status j').
Proof.
  intros Hj Hj'.
  assert (Hrun : forall ph', Job.status j = "running" ->
            job (call_in x (plan_of x) ph') = Some j' ->
            lifecycle (Job.status j) (Job.status j')).
  { intros ph' Hr H'. rewrite Hr. destruct ph'; cbn in H'; injection H' as <-; cbn.
    - by left.
    - right. split; [done | by right].
    - right. split; [done | by left]. }
  destruct ph as [dn a0 n rest | dn a0 n rest |].
  - apply (Hrun _ ltac:(by cbn in Hj; injection Hj as <-) Hj').
  - assert (phase_step i x (Failed dn a0 n rest) a = Failed dn a0 n rest) as Heq
      by (destruct a; cbn; try done; by destruct (Nat.eqb _ _)).
    rewrite Heq in Hj'. left. congruence.
  - assert (phase_step i x Completed a = Completed) as Heq
      by (destruct a; cbn; try done; by destruct (Nat.eqb _ _)).
    rewrite Heq in Hj'. left. congruence.
Qed.

(** C6, amended: a job follows the lifecycle running -> completed | error.
    A submission creates no record.  The record of a job is created when a
    stream is opened for an identity that has no completed record, with
    status 'running' and an empty list of agent records, and is stored in
    the registry at once.  From then on the status of a job object is
    'running', 'completed' or 'error' (never 'pending'), and a transition
    of the server keeps it or takes it from 'running' to 'completed' or to
    'error'. *)
Theorem job_lifecycle :
  (forall w body nid, step w (Submit body nid) = w)
  /\ (forall w jobId res now, (res < length (calls w))%nat ->
        jobs_get (register_job jobId res now w) jobId
        = Some (Job.mk jobId "running" now [] None))
  /\ (forall w jobId q failRate now,
        is_completed (jobs_get w jobId) = false ->
        exists j, jobs_get (stream jobId q failRate now w) jobId = Some j
                  /\ Job.status j = "running")
  /\ (forall w a i c j,
        reachable w -> valid a -> calls w !! i = Some c -> job c = Some j ->
        (Job.status j = "running" \/ Job.status j = "completed"
         \/ Job.status j = "error")
        /\ exists c' j', calls (step w a) !! i = Some c' /\ job c' = Some j'
                         /\ lifecycle (Job.status j) (Job.status j')).
Proof.
  split; [|split; [|split]].
  - reflexivity.
  - intros w jobId res0 now Hres. unfold jobs_get, register_job. proj.
    rewrite lookup_insert_eq, list_lookup_alter_eq.
    destruct (lookup_lt_is_Some_2 (calls w) res0 Hres) as [c ->]. reflexivity.
  - intros w jobId q failRate now Hnot. rewrite stream_live by exact Hnot.
    unfold jobs_get. proj. rewrite lookup_insert_eq.
    rewrite lookup_app_r by lia. rewrite Nat.sub_diag. cbn [lookup list_lookup].
    destruct (enter_plan (stream_args jobId q failRate now)) as (a & rest & _ & ->).
    eexists. split; reflexivity.
  - intros w a i c j Hw Ha Hc Hj. apply reachable_ok in Hw as [Hcalls _].
    rewrite Forall_lookup in Hcalls.
    destruct (Hcalls i c Hc) as [(x & ph & Hlive) | (jid & x & ->)]; [|done].
    destruct (live_call_step w a i c x ph Hc Hlive Ha) as (c' & Hc' & Hlive').
    destruct Hlive as [-> _], Hlive' as [-> _]. split.
    + destruct ph; cbn in Hj; injection Hj as <-; cbn; auto.
    + destruct (call_in_job x (plan_of x) (phase_step i x ph a)) as (j' & Hj' & _).
      eexists _, j'. split; [exact Hc'|]. split; [exact Hj'|].
      by apply (call_status_step i x ph a).
Qed.

(** ** Progress and failure of an agent record *)

Lemma call_in_agents x plan ph :
  job_agents (call_in x plan ph)
  = match ph with
    | Suspended done a n _ => (map completed_run done ++ [run_after "running" a n])%list
    | Failed done a n _ => (map completed_run done ++ [run_after "failed" a n])%list
    | Completed => map completed_run plan
    end.
Proof. by destruct ph. Qed.

Lemma lookup_completed_run (l : list Agent.t) m r :
  map completed_run l !! m = Some r -> exists a, a ∈ l /\ r = completed_run a.
Proof.
  intros H. apply list_elem_of_lookup_2, list_elem_of_In, in_map_iff in H.
  destruct H as (a & <- & Ha). exists a. split; [by apply list_elem_of_In | done].
Qed.

Lemma lookup_last_run (l : list Agent.t) (r0 : Run.t) m r :
  (map completed_run l ++ [r0])%list !! m = Some r ->
  ((m < length l)%nat /\ exists a, a ∈ l /\ r = completed_run a)
  \/ (m = length l /\ r = r0).
Proof.
  intros H. apply lookup_app_Some in H as [H | [Hm H]].
  - left. split; [|by eapply lookup_completed_run].
    apply lookup_lt_Some in H. by rewrite length_map in H.
  - right. rewrite length_map in *.
    destruct (m - length l)%nat as [|k] eqn:Hk; cbn in H; [|done].
    split; [lia | congruence].
Qed.

(** A failed agent record is the last record of a failed run. *)
Lemma failed_run_phase x plan ph m r :
  job_agents (call_in x plan ph) !! m = Some r -> Run.status r = "failed" ->
  exists done a n rest,
    ph = Failed done a n rest /\ m = length done /\ r = run_after "failed" a n.
Proof.
  rewrite call_in_agents. intros H Hst.
  destruct ph as [dn a n rest | dn a n rest |].
  - apply lookup_last_run in H as [(_ & a' & _ & ->) | [_ ->]]; discriminate.
  - apply lookup_last_run in H as [(_ & a' & _ & ->) | [-> ->]]; [discriminate|].
    by exists dn, a, n, rest.
  - apply lookup_completed_run in H as (a' & _ & ->). discriminate.
Qed.

Lemma enter_not_failed rest : forall done done' a n rest',
  enter done rest <> Failed done' a n rest'.
Proof.
  induction rest as [|b rest IH]; intros dn dn' a n rest'; cbn [enter]; [done|].
  destruct (1 <=? Agent.steps b)%nat; [done | apply IH].
Qed.

(** C1: in every state of the server, for every job object (whether the
    registry still holds it or not) and every agent record in it, the
    progress is 100 only when the status is 'completed'; an agent record
    that is 'failed' after a transition has the progress and the log lines
    that it had before the transition (the failing step adds none); and
    once it is 'failed' it stays the very same record whatever happens.
    The states are those between two segments, the only ones in which a
    record can be read: the last step of an agent sets the progress to 100
    and the status to 'completed' in one segment. *)
Theorem progress_and_failure_invariant w :
  reachable w ->
  (forall i n rec, run_at w i n = Some rec ->
     Run.progress rec = 100%Z -> Run.status rec = "completed")
  /\ (forall a i n rec rec', valid a ->
        run_at w i n = Some rec -> run_at (step w a) i n = Some rec' ->
        Run.status rec' = "failed" ->
        Run.progress rec' = Run.progress rec /\ Run.logs rec' = Run.logs rec)
  /\ (forall l i n rec, Forall valid l ->
        run_at w i n = Some rec -> Run.status rec = "failed" ->
        run_at (run w l) i n = Some rec).
Proof.
  intros Hw. apply reachable_ok in Hw as [Hcalls _]. rewrite Forall_lookup in Hcalls.
  assert (Hcase : forall i n r, run_at w i n = Some r ->
            exists x ph, calls w !! i = Some (call_in x (plan_of x) ph)
                         /\ phase_ok (x_failRate x) (plan_of x) ph
                         /\ job_agents (call_in x (plan_of x) ph) !! n = Some r).
  { intros i n r H. unfold run_at in H. destruct (calls w !! i) as [c|] eqn:Hc; [|done].
    destruct (Hcalls i c Hc) as [(x & ph & -> & Hok) | (jid & x & ->)]; [|done].
    by exists x, ph. }
  split; [|split].
  - intros i n r H H100. destruct (Hcase i n r H) as (x & ph & _ & [_ Hshape] & Hr).
    rewrite call_in_agents in Hr.
    assert (Hpartial : forall done a k rest st,
              plan_of x = (done ++ a :: rest)%list -> (k < Agent.steps a)%nat ->
              Run.progress (run_after st a k) <> 100%Z).
    { intros dn a k rest st Hplan Hk. cbn.
      pose proof (planAgents_steps (x_requestText x)) as Hs. fold (plan_of x) in Hs.
      rewrite Hplan in Hs. apply Forall_app in Hs as [_ Hs].
      apply Forall_cons in Hs as [Ha _].
      pose proof (progress_after_partial a k Ha Hk). lia. }
    destruct ph as [dn a k rest | dn a k rest |].
    + destruct Hshape as [Hplan Hk].
      apply lookup_last_run in Hr as [(_ & a' & _ & ->) | [_ ->]]; [done|].
      by destruct (Hpartial dn a k rest "running" Hplan Hk).
    + destruct Hshape as (Hplan & Hk & _).
      apply lookup_last_run in Hr as [(_ & a' & _ & ->) | [_ ->]]; [done|].
      by destruct (Hpartial dn a k rest "failed" Hplan Hk).
    + by apply lookup_completed_run in Hr as (a' & _ & ->).
  - intros a i n r r' Ha H H' Hfailed.
    destruct (Hcase i n r H) as (x & ph & Hc & Hok & Hr).
    unfold run_at in H'. rewrite (step_lookup w a i x ph Hc Hok) in H'.
    destruct (failed_run_phase _ _ _ _ _ H' Hfailed)
      as (dn & a0 & k & rest & Hph & -> & ->).
    destruct ph as [dn1 a1 k1 rest1 | dn1 a1 k1 rest1 |].
    + destruct a as [body nid | jobId q failRate now | j0 r0];
        cbn [phase_step] in Hph; try discriminate.
      destruct (Nat.eqb i j0); [|discriminate]. cbn [next_phase] in Hph.
      destruct (js_lt (Fin r0) (x_failRate x)).
      * injection Hph as -> -> -> ->. rewrite call_in_agents in Hr.
        apply lookup_last_run in Hr as [(Hlt & _) | [_ ->]]; [lia | by split].
      * destruct (S k1 + 1 <=? Agent.steps a1)%nat; [discriminate|].
        by apply enter_not_failed in Hph.
    + assert (phase_step i x (Failed dn1 a1 k1 rest1) a = Failed dn1 a1 k1 rest1)
        as Heq by (destruct a; cbn; try done; by destruct (Nat.eqb _ _)).
      rewrite Heq in H'. split; congruence.
    + assert (phase_step i x Completed a = Completed) as Heq
        by (destruct a; cbn; try done; by destruct (Nat.eqb _ _)).
      rewrite Heq in Hph. discriminate.
  - intros l i n r Hl H Hfailed.
    destruct (Hcase i n r H) as (x & ph & Hc & Hok & Hr).
    destruct (failed_run_phase _ _ _ _ _ Hr Hfailed)
      as (dn & a0 & k & rest & -> & -> & ->).
    unfold run_at. rewrite (run_lookup_idle l w i _ Hc eq_refl). exact Hr.
Qed.

(** ** Counting events *)

Lemma count_event_app name l1 l2 :
  count_event name (l1 ++ l2) = (count_event name l1 + count_event name l2)%nat.
Proof. unfold count_event. by rewrite List.filter_app, length_app. Qed.

Lemma count_event_none name ns l :
  Forall (fun e => In (event e) ns) l -> ~ In name ns -> count_event name l = 0%nat.
Proof.
  intros Hl Hname. unfold count_event.
  induction Hl as [|e l He Hl IH]; cbn; [reflexivity|].
  destruct (String.eqb_spec (event e) name) as [<-|_]; [by destruct Hname | exact IH].
Qed.

Lemma agent_events_names a : Forall (fun e => In (event e) progress_names) (agent_events a).
Proof.
  unfold agent_events, progress_events. constructor; [cbn; auto 10|].
  apply Forall_app. split; [|constructor; [cbn; auto 10 | constructor]].
  apply Forall_forall. intros e He. apply list_elem_of_In, in_map_iff in He.
  destruct He as (k & <- & _). cbn. auto 10.
Qed.

Lemma flat_agent_events_names l :
  Forall (fun e => In (event e) progress_names) (flat_map agent_events l).
Proof.
  induction l as [|a l IH]; cbn [flat_map]; [constructor|].
  apply Forall_app. split; [apply agent_events_names | exact IH].
Qed.

Lemma header_names x plan :
  Forall (fun e => In (event e) progress_names) (header x plan).
Proof. constructor; [cbn; auto 10|]. constructor; [cbn; auto 10 | constructor]. Qed.

Lemma events_upto_names x plan dn a n :
  Forall (fun e => In (event e) progress_names) (events_upto x plan dn a n).
Proof.
  unfold events_upto. apply Forall_app. split; [apply header_names|].
  apply Forall_app. split; [apply flat_agent_events_names|].
  constructor; [cbn; auto 10|]. unfold progress_events.
  apply Forall_forall. intros e He. apply list_elem_of_In, in_map_iff in He.
  destruct He as (k & <- & _). cbn. auto 10.
Qed.

Lemma not_progress_name name :
  String.eqb name "job-start" || String.eqb name "plan"
  || String.eqb name "agent-start" || String.eqb name "agent-progress"
  || String.eqb name "agent-complete" = false ->
  ~ In name progress_names.
Proof.
  intros H Hin. cbn in Hin.
  repeat (destruct Hin as [<- | Hin]; [discriminate|]). exact Hin.
Qed.

(** ** The phases of one run *)

Lemma phase_run_failed i x dn a n rest l :
  phase_run i x (Failed dn a n rest) l = Failed dn a n rest.
Proof.
  induction l as [|act l IH]; [reflexivity|]. unfold phase_run in *. cbn [fold_left].
  destruct act as [body nid | jobId q failRate now | j r]; cbn [phase_step]; try exact IH.
  destruct (Nat.eqb i j); exact IH.
Qed.

Lemma phase_run_completed i x l : phase_run i x Completed l = Completed.
Proof.
  induction l as [|act l IH]; [reflexivity|]. unfold phase_run in *. cbn [fold_left].
  destruct act as [body nid | jobId q failRate now | j r]; cbn [phase_step]; try exact IH.
  destruct (Nat.eqb i j); exact IH.
Qed.

(** At rate 1 the first timer that fires ends the run. *)
Lemma phase_run_rate_one i x dn a n rest l :
  x_failRate x = Fin 1 -> Forall valid l ->
  phase_run i x (Suspended dn a n rest) l
  = if Nat.eqb (fires i l) 0 then Suspended dn a n rest else Failed dn a n rest.
Proof.
  intros Hf Hl. induction Hl as [|act l Hact Hl IH]; [reflexivity|].
  unfold phase_run in *. cbn [fold_left fires].
  destruct act as [body nid | jobId q failRate now | j r]; cbn [phase_step]; try exact IH.
  destruct (Nat.eqb i j); [|exact IH]. cbn [next_phase Nat.eqb].
  rewrite Hf. destruct Hact as [_ Hr]. cbn [js_lt]. unfold Qltb.
  destruct (Qle_bool 1 r) eqn:H1.
  - apply Qle_bool_iff in H1. by apply Qle_not_lt in H1.
  - cbn [negb]. apply (phase_run_failed i x dn a n rest l).
Qed.

Lemma passed_next_phase x plan r dn a n rest :
  plan = (dn ++ a :: rest)%list -> (n < Agent.steps a)%nat ->
  js_lt (Fin r) (x_failRate x) = false ->
  passed plan (next_phase x r (Suspended dn a n rest))
  = S (passed plan (Suspended dn a n rest)).
Proof.
  intros Hplan Hn Hpass. cbn [next_phase]. rewrite Hpass.
  destruct (S n + 1 <=? Agent.steps a)%nat eqn:Hmore; [cbn; lia|].
  apply Nat.leb_gt in Hmore.
  rewrite (passed_enter plan rest (dn ++ [a])) by (by rewrite <- app_assoc).
  rewrite total_steps_app. cbn. lia.
Qed.

Lemma passed_suspended f plan dn a n rest :
  phase_ok f plan (Suspended dn a n rest) ->
  (passed plan (Suspended dn a n rest) < total_steps plan)%nat.
Proof.
  intros [_ [-> Hn]]. rewrite total_steps_app. cbn. lia.
Qed.

(** A run in which no draw fails never fails, and is complete once its
    timer has fired for every step. *)
Lemma phase_run_failure_free i x plan l : forall ph,
  (forall r, unit_draw r -> js_lt (Fin r) (x_failRate x) = false) ->
  Forall valid l ->
  phase_ok (x_failRate x) plan ph -> is_failed ph = false ->
  is_failed (phase_run i x ph l) = false
  /\ ((total_steps plan <= passed plan ph + fires i l)%nat ->
      phase_run i x ph l = Completed).
Proof.
  intros ph Hnf Hl. revert ph.
  induction Hl as [|act l Hact Hl IH]; intros ph Hok Hph.
  - split; [exact Hph|]. cbn. intros Hle.
    destruct ph as [dn a n rest | dn a n rest |]; [|discriminate|reflexivity].
    apply passed_suspended in Hok. lia.
  - unfold phase_run in *. cbn [fold_left fires].
    destruct act as [body nid | jobId q failRate now | j r]; cbn [phase_step];
      try (by apply IH).
    destruct (Nat.eqb i j); [|by apply IH].
    destruct ph as [dn a n rest | dn a n rest |]; [|discriminate|].
    + pose proof Hok as [_ [Hplan Hn]].
      assert (is_failed (next_phase x r (Suspended dn a n rest)) = false) as Hnext.
      { cbn [next_phase]. rewrite (Hnf r Hact).
        destruct (S n + 1 <=? Agent.steps a)%nat; [reflexivity|].
        destruct (enter (dn ++ [a]) rest) eqn:He; try reflexivity.
        by apply enter_not_failed in He. }
      destruct (IH (next_phase x r (Suspended dn a n rest))
                  (phase_ok_next x plan _ r Hok Hact) Hnext) as [IH1 IH2].
      split; [exact IH1|]. intros Hle. apply IH2.
      rewrite (passed_next_phase x plan r dn a n rest Hplan Hn (Hnf r Hact)). lia.
    + cbn [next_phase]. destruct (IH Completed Hok Hph) as [IH1 IH2].
      split; [exact IH1|]. intros Hle. apply IH2. cbn in *. lia.
Qed.

(** The call that a stream request starts, after any further actions. *)
Lemma stream_run jobId q failRate now w l :
  is_completed (jobs_get w jobId) = false -> Forall valid l ->
  calls (run (stream jobId q failRate now w) l) !! length (calls w)
  = Some (call_in (stream_args jobId q failRate now)
            (plan_of (stream_args jobId q failRate now))
            (phase_run (length (calls w)) (stream_args jobId q failRate now)
               (enter [] (plan_of (stream_args jobId q failRate now))) l)).
Proof.
  intros Hnot Hl.
  set (x := stream_args jobId q failRate now).
  assert (Hc : calls (stream jobId q failRate now w) !! length (calls w)
               = Some (call_in x (plan_of x) (enter [] (plan_of x)))).
  { rewrite stream_live by exact Hnot. proj.
    rewrite lookup_app_r by lia. by rewrite Nat.sub_diag. }
  assert (Hlive : live_call (call_in x (plan_of x) (enter [] (plan_of x))) x
                    (enter [] (plan_of x))).
  { split; [reflexivity|]. apply phase_ok_enter; [reflexivity | cbn; lia]. }
  destruct (live_call_run l _ _ _ x _ Hc Hlive Hl) as (c' & Hc' & -> & _).
  exact Hc'.
Qed.

(** ** Failure *)

Lemma awaiting_call w i c k :
  world_ok w -> calls w !! i = Some c -> awaiting c = Some k ->
  exists x dn a n rest,
    c = call_in x (plan_of x) (Suspended dn a n rest)
    /\ phase_ok (x_failRate x) (plan_of x) (Suspended dn a n rest)
    /\ k = {| k_jobId := x_jobId x; k_requestText := x_requestText x;
              k_failRate := x_failRate x; k_agent := a; k_run := length dn;
              k_step := S n; k_rest := rest |}.
Proof.
  intros [Hcalls _] Hc Hk. rewrite Forall_lookup in Hcalls.
  destruct (Hcalls i c Hc) as [(x & ph & -> & Hok) | (jid & x & ->)]; [|discriminate].
  destruct ph as [dn a n rest | dn a n rest |]; try discriminate.
  exists x, dn, a, n, rest. cbn in Hk. injection Hk as <-.
  split; [reflexivity|]. split; [exact Hok | reflexivity].
Qed.

Lemma rate_one_fails r : unit_draw r -> js_lt (Fin r) (Fin 1) = true.
Proof.
  intros [_ Hr]. cbn. unfold Qltb. destruct (Qle_bool 1 r) eqn:H1; [|reflexivity].
  apply Qle_bool_iff in H1. by apply Qle_not_lt in H1.
Qed.

Lemma rate_zero_passes r : unit_draw r -> js_lt (Fin r) (Fin 0) = false.
Proof.
  intros [Hr _]. cbn. unfold Qltb. apply Qle_bool_iff in Hr. by rewrite Hr.
Qed.

(** C3: when the failure draw of a step succeeds, the runner marks that
    agent record 'failed' and the job 'error', writes one [job-error]
    event that names the agent and the step, ends the response and stops:
    the failing agent is the last agent record, the response holds exactly
    one [job-error] and no [job-complete], and nothing that happens later
    changes the call, so that no event of a later agent is ever written.
    With failure rate 1, as soon as the timer of the run has fired, the
    events are [job-start], [plan], the [agent-start] of the first agent
    and one [job-error]: exactly one [job-error], no [job-complete], no
    [agent-complete]. *)
Theorem failure_ends_job :
  (forall w i c k r,
     reachable w -> calls w !! i = Some c -> awaiting c = Some k ->
     js_lt (Fin r) (k_failRate k) = true ->
     exists c' j' rec,
       calls (step w (Timer i r)) !! i = Some c'
       /\ written (res c')
          = (written (res c)
             ++ [ {| event := "job-error";
                     data := JobErrorData
                               (Agent.name (k_agent k) ++ " encountered an error at step "
                                ++ pretty (k_step k))
                               (Some (Agent.id (k_agent k))) |} ])%list
       /\ count_event "job-error" (written (res c')) = 1%nat
       /\ count_event "job-complete" (written (res c')) = 0%nat
       /\ ended (res c') = true /\ awaiting c' = None
       /\ job c' = Some j' /\ Job.status j' = "error"
       /\ Job.agents j' !! k_run k = Some rec
       /\ Run.status rec = "failed" /\ Run.id rec = Agent.id (k_agent k)
       /\ length (Job.agents j') = S (k_run k)
       /\ forall l, calls (run (step w (Timer i r)) l) !! i = Some c')
  /\ (forall w jobId q failRate now l,
        is_completed (jobs_get w jobId) = false ->
        fail_of failRate = Fin 1 -> Forall valid l ->
        (0 < fires (length (calls w)) l)%nat ->
        exists c,
          calls (run (stream jobId q failRate now w) l) !! length (calls w) = Some c
          /\ names (written (res c)) = ["job-start"; "plan"; "agent-start"; "job-error"]
          /\ ended (res c) = true
          /\ count_event "job-error" (written (res c)) = 1%nat
          /\ count_event "job-complete" (written (res c)) = 0%nat
          /\ count_event "agent-complete" (written (res c)) = 0%nat).
Proof.
  split.
  - intros w i c k r Hw Hc Hk Hfail. apply reachable_ok in Hw.
    destruct (awaiting_call w i c k Hw Hc Hk)
      as (x & dn & a & n & rest & -> & Hok & ->). proj.
    pose proof (step_lookup w (Timer i r) i x _ Hc Hok) as Hc'.
    cbn [phase_step next_phase] in Hc'. rewrite Nat.eqb_refl, Hfail in Hc'.
    eexists _, _, _. split; [exact Hc'|]. cbn [call_in]. proj.
    split; [reflexivity|].
    assert (Hcount : forall name, ~ In name progress_names ->
              count_event name (events_upto x (plan_of x) dn a n) = 0%nat).
    { intros name. apply count_event_none, events_upto_names. }
    split; [rewrite count_event_app, Hcount by (by apply not_progress_name);
            reflexivity|].
    split; [rewrite count_event_app, Hcount by (by apply not_progress_name);
            reflexivity|].
    split; [reflexivity|]. split; [reflexivity|]. split; [reflexivity|].
    split; [reflexivity|].
    split; [proj; rewrite lookup_app_r by (by rewrite length_map);
            by rewrite length_map, Nat.sub_diag|].
    split; [reflexivity|]. split; [reflexivity|].
    split; [proj; rewrite length_app, length_map; cbn; lia|].
    intros l. by apply run_lookup_idle.
  - intros w jobId q failRate now l Hnot Hrate Hl Hfires.
    rewrite (stream_run jobId q failRate now w l Hnot Hl).
    destruct (enter_plan (stream_args jobId q failRate now)) as (a & rest & Hplan & ->).
    rewrite phase_run_rate_one by (exact Hrate || exact Hl).
    destruct (Nat.eqb_spec (fires (length (calls w)) l) 0) as [H0|_]; [lia|].
    eexists. split; [reflexivity|]. cbn. by repeat split.
Qed.

(** ** Runs without failure *)

Lemma completed_runs_full plan :
  Forall (fun a => (1 <= Agent.steps a <= 3)%nat) plan ->
  Forall (fun rec => Run.status rec = "completed" /\ Run.progress rec = 100%Z)
    (map completed_run plan).
Proof.
  intros Hs. induction Hs as [|a plan Ha Hs IH]; cbn [map]; constructor; [|exact IH].
  split; [reflexivity|]. cbn. unfold progress_after.
  destruct (Agent.steps a) as [|k] eqn:Hk; [lia|]. apply progress_at_full. lia.
Qed.

Lemma completed_runs_ids plan :
  map Run.id (map completed_run plan) = map Agent.id plan.
Proof. by rewrite map_map. Qed.

(** C4: a job run with failure rate 0 never writes a [job-error]; once
    the timer of the run has fired for every step of the plan the response
    has ended; and when it has ended, its events are those of the agents
    followed by exactly one [job-complete], the last event, every agent
    record is 'completed' with progress 100, in plan order, and the
    synthesized summary of the stored result is the summaries of the
    agent records' outputs, in that order, joined by newlines. *)
Theorem failure_free_job w jobId q failRate now l :
  is_completed (jobs_get w jobId) = false ->
  fail_of failRate = Fin 0 -> Forall valid l ->
  exists c,
    calls (run (stream jobId q failRate now w) l) !! length (calls w) = Some c
    /\ count_event "job-error" (written (res c)) = 0%nat
    /\ ((total_steps (planAgents toLowerCase (text_of q))
         <= fires (length (calls w)) l)%nat -> ended (res c) = true)
    /\ (ended (res c) = true ->
        exists evs j result,
          written (res c)
          = (evs ++ [ {| event := "job-complete";
                         data := JobCompleteData jobId (Some result) |} ])%list
          /\ count_event "job-complete" evs = 0%nat
          /\ count_event "job-complete" (written (res c)) = 1%nat
          /\ job c = Some j /\ Job.status j = "completed"
          /\ Forall (fun rec => Run.status rec = "completed"
                                /\ Run.progress rec = 100%Z) (Job.agents j)
          /\ map Run.id (Job.agents j)
             = map Agent.id (planAgents toLowerCase (text_of q))
          /\ Job.result j = Some result
          /\ Result.synthesizedSummary result
             = String.concat newline (map summary_of (Job.agents j))).
Proof.
  intros Hnot Hrate Hl.
  rewrite (stream_run jobId q failRate now w l Hnot Hl).
  set (x := stream_args jobId q failRate now).
  change (planAgents toLowerCase (text_of q)) with (plan_of x).
  assert (Hok : phase_ok (x_failRate x) (plan_of x) (enter [] (plan_of x)))
    by (apply phase_ok_enter; [reflexivity | cbn; lia]).
  assert (Hstart : is_failed (enter [] (plan_of x)) = false)
    by (by destruct (enter_plan x) as (a & rest & _ & ->)).
  assert (Hnf : forall r, unit_draw r -> js_lt (Fin r) (x_failRate x) = false).
  { intros r Hr. cbn [x x_failRate stream_args]. rewrite Hrate.
    by apply rate_zero_passes. }
  destruct (phase_run_failure_free (length (calls w)) x (plan_of x) l _ Hnf Hl Hok Hstart)
    as [Hfree Hdone].
  rewrite (passed_enter (plan_of x) (plan_of x) [] eq_refl) in Hdone. cbn in Hdone.
  assert (Hcount : forall name evs, ~ In name progress_names ->
            Forall (fun e => In (event e) progress_names) evs ->
            count_event name evs = 0%nat).
  { intros name evs Hname Hevs. by apply (count_event_none name progress_names). }
  eexists. split; [reflexivity|].
  destruct (phase_run (length (calls w)) x (enter [] (plan_of x)) l)
    as [dn a n rest | dn a n rest |] eqn:Hph; [|discriminate|].
  - split; [apply Hcount; [by apply not_progress_name | apply events_upto_names]|].
    split; [intros Hle; by specialize (Hdone Hle) | discriminate].
  - cbn [call_in]. proj.
    assert (Hevs : Forall (fun e => In (event e) progress_names)
                     (header x (plan_of x) ++ flat_map agent_events (plan_of x))).
    { apply Forall_app. split; [apply header_names | apply flat_agent_events_names]. }
    split.
    { rewrite app_assoc, count_event_app, Hcount;
        [reflexivity | by apply not_progress_name | exact Hevs]. }
    split; [reflexivity|]. intros _.
    exists (header x (plan_of x) ++ flat_map agent_events (plan_of x))%list,
      (completed_job x (plan_of x)), (final_result x (plan_of x)).
    split; [by rewrite <- app_assoc|].
    split; [apply Hcount; [by apply not_progress_name | exact Hevs]|].
    split.
    { rewrite app_assoc, count_event_app, Hcount;
        [reflexivity | by apply not_progress_name | exact Hevs]. }
    split; [reflexivity|]. split; [reflexivity|].
    split; [apply completed_runs_full, planAgents_steps|].
    split; [apply completed_runs_ids|]. split; [reflexivity|].
    cbn. by rewrite summaries_completed.
Qed.

(** ** The progress events of an agent *)

Lemma filter_progress_events id b ls :
  List.filter (progress_of id) (map (progress_event b) ls)
  = if String.eqb (Agent.id b) id then map (progress_event b) ls else [].
Proof.
  induction ls as [|k ls IH]; cbn [map List.filter]; [by destruct (String.eqb _ _)|].
  rewrite IH. unfold progress_of at 1. cbn [data progress_event].
  by destruct (String.eqb (Agent.id b) id).
Qed.

Lemma filter_progress_agent id b :
  List.filter (progress_of id) (agent_events b)
  = if String.eqb (Agent.id b) id then progress_events b (Agent.steps b) else [].
Proof.
  unfold agent_events. cbn [List.filter]. unfold progress_of at 1.
  cbn [data start_event]. rewrite List.filter_app. unfold progress_events.
  rewrite filter_progress_events. cbn. rewrite app_nil_r. reflexivity.
Qed.

Lemma filter_progress_absent id l :
  id ∉ map Agent.id l ->
  List.filter (progress_of id) (flat_map agent_events l) = [].
Proof.
  induction l as [|b l IH]; cbn [flat_map map]; [reflexivity|].
  intros Hid. apply not_elem_of_cons in Hid as [Hne Hid].
  rewrite List.filter_app, filter_progress_agent, IH by exact Hid.
  destruct (String.eqb_spec (Agent.id b) id) as [Heq|_]; [by destruct Hne|reflexivity].
Qed.

Lemma filter_progress_plan plan a :
  NoDup (map Agent.id plan) -> a ∈ plan ->
  List.filter (progress_of (Agent.id a)) (flat_map agent_events plan)
  = progress_events a (Agent.steps a).
Proof.
  induction plan as [|b plan IH]; cbn [flat_map map]; intros Hnd Ha.
  - by apply elem_of_nil in Ha.
  - apply NoDup_cons in Hnd as [Hb Hnd]. rewrite List.filter_app, filter_progress_agent.
    apply elem_of_cons in Ha as [->|Ha].
    + rewrite String.eqb_refl, filter_progress_absent by exact Hb. apply app_nil_r.
    + destruct (String.eqb_spec (Agent.id b) (Agent.id a)) as [Heq|_].
      * destruct Hb. rewrite Heq. apply list_elem_of_In, in_map, list_elem_of_In, Ha.
      * by apply IH.
Qed.

(** C10: in a live run that completed, the events are those of the agents
    of the plan in order, and the [agent-progress] events of an agent are
    exactly one per step of its declared step count, for the steps 1 to
    [steps] in order, each with the progress round(step / steps * 100). *)
Theorem progress_event_per_step w i c j :
  reachable w -> calls w !! i = Some c -> job c = Some j ->
  Job.status j = "completed" ->
  exists x,
    written (res c)
    = (header x (plan_of x) ++ flat_map agent_events (plan_of x)
       ++ [complete_job_event x (plan_of x)])%list
    /\ forall a, a ∈ plan_of x ->
         List.filter (progress_of (Agent.id a)) (written (res c))
         = map (fun step =>
                  {| event := "agent-progress";
                     data := AgentProgressData (Agent.id a)
                               (Math_round (inject_Z (Z.of_nat step)
                                            / inject_Z (Z.of_nat (Agent.steps a))
                                            * inject_Z 100))
                               (Agent.name a ++ ": completed step " ++ pretty step
                                ++ "/" ++ pretty (Agent.steps a)) |})
             (seq 1 (Agent.steps a)).
Proof.
  intros Hw Hc Hj Hst. apply reachable_ok in Hw as [Hcalls _].
  rewrite Forall_lookup in Hcalls.
  destruct (Hcalls i c Hc) as [(x & ph & -> & _) | (jid & x & ->)]; [|discriminate].
  destruct ph as [dn a n rest | dn a n rest |]; cbn in Hj; injection Hj as <-;
    try discriminate.
  exists x. split; [reflexivity|]. intros a Ha. cbn [call_in]. proj.
  rewrite !List.filter_app.
  rewrite (filter_progress_plan (plan_of x) a (planAgents_ids_distinct _) Ha).
  cbn. by rewrite app_nil_r.
Qed.

(** ** Replay *)

Lemma squeeze_cons x t :
  hd_error t <> Some x -> squeeze (x :: t) = x :: squeeze t.
Proof.
  destruct t as [|y t]; cbn; [reflexivity|]. intros H.
  destruct (String.eqb_spec x y) as [->|_]; [by destruct H | reflexivity].
Qed.

Lemma names_progress_events a n :
  names (progress_events a n) = repeat "agent-progress" n.
Proof.
  unfold names, progress_events. rewrite map_map. cbn.
  by rewrite map_const, length_seq.
Qed.

Lemma names_agent_events a :
  names (agent_events a)
  = "agent-start" :: (repeat "agent-progress" (Agent.steps a) ++ ["agent-complete"])%list.
Proof.
  unfold agent_events, names. cbn [map]. rewrite map_app.
  fold (names (progress_events a (Agent.steps a))). by rewrite names_progress_events.
Qed.

Lemma squeeze_progress n t :
  squeeze (repeat "agent-progress" (S n) ++ "agent-complete" :: t)
  = "agent-progress" :: squeeze ("agent-complete" :: t).
Proof.
  induction n as [|n IH]; [reflexivity|].
  change (repeat "agent-progress" (S (S n)))
    with ("agent-progress" :: repeat "agent-progress" (S n)).
  rewrite <- IH. reflexivity.
Qed.

Lemma hd_live_names plan t :
  hd_error (names (flat_map agent_events plan) ++ "job-complete" :: t)
  <> Some "agent-complete"
  /\ hd_error (names (flat_map agent_events plan) ++ "job-complete" :: t)
     <> Some "plan".
Proof. destruct plan as [|a plan]; cbn; split; discriminate. Qed.

(** The names of a complete live run, runs of [agent-progress] merged. *)
Lemma squeeze_live_names plan :
  Forall (fun a => (1 <= Agent.steps a)%nat) plan ->
  squeeze (names (flat_map agent_events plan) ++ ["job-complete"])
  = (flat_map (fun _ => agent_names_spec) plan ++ ["job-complete"])%list.
Proof.
  intros Hs. induction Hs as [|a plan Ha Hs IH]; [reflexivity|].
  cbn [flat_map]. unfold names in *. rewrite map_app.
  fold (names (agent_events a)). rewrite names_agent_events.
  destruct (Agent.steps a) as [|n]; [lia|].
  cbn [app agent_names_spec flat_map].
  rewrite squeeze_cons by (cbn; discriminate).
  rewrite <- !app_assoc. cbn [app]. rewrite squeeze_progress.
  rewrite squeeze_cons by apply (hd_live_names plan []).
  by rewrite IH.
Qed.

Lemma names_replay_agents (runs : list Run.t) :
  names (flat_map replay_agent runs) = flat_map (fun _ => agent_names_spec) runs.
Proof.
  induction runs as [|r runs IH]; [reflexivity|].
  cbn [flat_map]. unfold names in *. rewrite map_app, IH. reflexivity.
Qed.

Lemma flat_map_const_map {A B C} (f : A -> B) (l : list A) (c : list C) :
  flat_map (fun _ => c) (map f l) = flat_map (fun _ => c) l.
Proof. induction l as [|a l IH]; cbn; [reflexivity | by rewrite IH]. Qed.

Lemma names_replay_events jobId existing :
  names (replay_events jobId existing) = replay_names_spec (Job.agents existing).
Proof.
  unfold replay_events, replay_names_spec, names. rewrite !map_app.
  fold (names (flat_map replay_agent (Job.agents existing))).
  by rewrite names_replay_agents.
Qed.

(** The runner on any plan, driven by draws. *)
Lemma start_plan_phase x plan :
  start_plan x plan = call_in x plan (enter [] plan).
Proof. apply (run_agents_between x plan plan []). reflexivity. Qed.

Lemma drive_phase x plan draws : forall ph,
  phase_ok (x_failRate x) plan ph -> Forall unit_draw draws ->
  drive draws (call_in x plan ph)
  = call_in x plan (phase_run 0 x ph (map (Timer 0) draws)).
Proof.
  induction draws as [|r draws IH]; intros ph Hok Hd; [reflexivity|].
  inversion Hd as [|? ? Hr Hd']; subst.
  destruct ph as [dn a n rest | dn a n rest |].
  - cbn [drive call_in awaiting]. pose proof Hok as [_ [Hplan Hn]].
    change (phase_run 0 x (Suspended dn a n rest) (map (Timer 0) (r :: draws)))
      with (phase_run 0 x (next_phase x r (Suspended dn a n rest))
              (map (Timer 0) draws)).
    rewrite <- (IH _ (phase_ok_next x plan _ r Hok Hr) Hd').
    f_equal. apply (resume_suspended x plan dn a n rest r Hplan Hn).
  - by rewrite phase_run_failed.
  - by rewrite phase_run_completed.
Qed.

Lemma names_one_step_plan (runs : list Run.t) :
  names (flat_map agent_events
           (map (fun a => Agent.mk (Run.id a) (Run.name a) (Run.role a) 1) runs))
  = flat_map (fun _ => agent_names_spec) runs.
Proof.
  induction runs as [|r runs IH]; [reflexivity|].
  cbn [map flat_map]. unfold names in *. rewrite map_app, IH. reflexivity.
Qed.

(** C2: a subscriber that attaches to a job whose record is 'completed'
    gets a replay built from that record alone: the handler registers
    nothing, starts no run and leaves every other call as it is.  The
    names of the replayed events are [job-start], [plan], then
    [agent-start], [agent-progress], [agent-complete] for each agent in
    plan order, then [job-complete].  This is the order of the names of
    the live run that completed the job, which has one [agent-progress]
    for each step where the replay has one for the agent; and it is, name
    for name, what the runner writes in a successful run of the plan that
    the replay announces (the same agents in the same order, one step
    each). *)
Theorem replay_event_order w jobId existing q failRate now :
  reachable w -> jobs_get w jobId = Some existing ->
  Job.status existing = "completed" ->
  exists i live x,
    stream jobId q failRate now w
    = {| jobs := jobs w;
         calls := calls w
                  ++ [ {| res := {| written := replay_events jobId existing;
                                    ended := true |};
                          job := None; awaiting := None |} ] |}
    /\ names (replay_events jobId existing) = replay_names_spec (plan_of x)
    /\ map Run.id (Job.agents existing) = map Agent.id (plan_of x)
    /\ calls w !! i = Some live /\ job live = Some existing
    /\ squeeze (names (written (res live))) = names (replay_events jobId existing)
    /\ forall y draws,
         x_failRate y = Fin 0 -> Forall unit_draw draws ->
         (total_steps (replay_plan existing) <= length draws)%nat ->
         names (written (res (drive draws (start_plan y (replay_plan existing)))))
         = names (replay_events jobId existing).
Proof.
  intros Hw Hget Hst. apply reachable_ok in Hw.
  destruct (jobs_get_completed w jobId existing Hw Hget Hst) as (i & x & Hi & Hc & ->).
  exists i, (call_in x (plan_of x) Completed), x.
  split; [by apply stream_replay|].
  assert (Hnames : names (replay_events jobId (completed_job x (plan_of x)))
                   = replay_names_spec (plan_of x)).
  { rewrite names_replay_events. unfold replay_names_spec. cbn [completed_job Job.agents].
    by rewrite flat_map_const_map. }
  split; [exact Hnames|]. split; [apply completed_runs_ids|].
  split; [exact Hc|]. split; [reflexivity|]. split.
  - rewrite Hnames. cbn [call_in res written header app]. unfold names. cbn [map event].
    rewrite map_app. cbn [map complete_job_event event].
    rewrite squeeze_cons by (cbn; discriminate).
    rewrite squeeze_cons by apply (hd_live_names (plan_of x) []).
    fold (names (flat_map agent_events (plan_of x))).
    rewrite squeeze_live_names; [reflexivity|].
    eapply Forall_impl; [apply planAgents_steps|]. cbn. intros a Ha. lia.
  - intros y draws Hrate Hd Hlen. rewrite start_plan_phase.
    set (p := replay_plan (completed_job x (plan_of x))).
    assert (Hok : phase_ok (x_failRate y) p (enter [] p))
      by (apply phase_ok_enter; [reflexivity | cbn; lia]).
    rewrite (drive_phase y p draws _ Hok Hd).
    assert (Hstart : is_failed (enter [] p) = false).
    { destruct (enter [] p) eqn:He; try reflexivity. by apply enter_not_failed in He. }
    assert (Hnf : forall r, unit_draw r -> js_lt (Fin r) (x_failRate y) = false)
      by (intros r Hr; rewrite Hrate; by apply rate_zero_passes).
    assert (Hl : Forall valid (map (Timer 0) draws)).
    { apply Forall_forall. intros act Hact. apply list_elem_of_In, in_map_iff in Hact.
      destruct Hact as (r & <- & Hr). cbn. rewrite Forall_forall in Hd.
      apply Hd. by apply list_elem_of_In. }
    destruct (phase_run_failure_free 0 y p (map (Timer 0) draws) _ Hnf Hl Hok Hstart)
      as [_ Hdone].
    rewrite Hdone.
    + rewrite names_replay_events. cbn [call_in res written header app].
      unfold replay_names_spec, names. cbn [map event]. rewrite map_app.
      fold (names (flat_map agent_events p)). unfold p, replay_plan.
      by rewrite names_one_step_plan.
    + rewrite (passed_enter p p [] eq_refl). cbn [total_steps fold_right Nat.add].
      assert (fires 0 (map (Timer 0) draws) = length draws) as ->; [|exact Hlen].
      clear. induction draws as [|r draws IH]; cbn; [reflexivity | by rewrite IH].
Qed.

(** ** More on the planner *)

(** X1: the five baseline stages are in every plan, in their order; the
    engineer stage is in the plan exactly when the case-folded request
    contains "code" or "api", the finance stage exactly when it contains
    "financial" or "quarter"; the plan holds no other agent; and without
    any keyword the plan is the baseline. *)
Theorem planAgents_baseline_order requestText :
  let lower := toLowerCase requestText in
  let plan := planAgents toLowerCase requestText in
  baseAgents `sublist_of` plan
  /\ (engineer ∈ plan <-> includes lower "code" || includes lower "api" = true)
  /\ (finance ∈ plan <-> includes lower "financial" || includes lower "quarter" = true)
  /\ (forall a, a ∈ plan -> a ∈ baseAgents \/ a = engineer \/ a = finance)
  /\ (includes lower "code" || includes lower "api" = false ->
      includes lower "financial" || includes lower "quarter" = false ->
      plan = baseAgents).
Proof.
  clear Number. intros lower plan. subst plan. unfold planAgents. fold lower.
  change (includes lower "code" || includes lower "api") with (wants_engineer lower).
  change (includes lower "financial" || includes lower "quarter") with (wants_finance lower).
  assert (Hin : forall (a : Agent.t) l, a ∈ l <-> In a l)
    by (intros; apply list_elem_of_In).
  destruct (wants_engineer lower), (wants_finance lower);
    (split; [unfold baseAgents, splice, unshift; cbn;
             repeat first [apply sublist_nil | apply sublist_skip | apply sublist_cons]|]);
    rewrite ?Hin; unfold baseAgents, splice, unshift, engineer, finance; cbn;
    (repeat split; try discriminate; try tauto; try reflexivity;
     try (intros; rewrite ?Hin in *; cbn in *; intuition (try discriminate; auto))).
Qed.

(** X2: every plan has between five and seven agents, with distinct ids,
    each of one to three steps, and between 11 and 15 steps in all. *)
Theorem planAgents_shape requestText :
  let plan := planAgents toLowerCase requestText in
  NoDup (map Agent.id plan)
  /\ Forall (fun a => (1 <= Agent.steps a <= 3)%nat) plan
  /\ (5 <= length plan <= 7)%nat
  /\ (11 <= total_steps plan <= 15)%nat.
Proof.
  intros plan. subst plan.
  split; [apply planAgents_ids_distinct|]. split; [apply planAgents_steps|].
  rewrite planAgents_cases.
  destruct (wants_finance _), (wants_engineer _); cbn; lia.
Qed.

(** ** More on the failure rate *)

(** X3: the failure rate of a stream request is 0 when the parameter is
    absent or is not a string; for a string that [Number] makes a number
    of, it is 0 when the number is at most 0, 1 when it is at least 1, and
    the number itself in between; an infinity is clamped to the bound on
    its side. *)
Theorem fail_of_clamp :
  fail_of QAbsent = Fin 0 /\ fail_of QNested = Fin 0
  /\ (forall s q, Number s = Fin q -> (q <= 0)%Q -> fail_of (QStr s) = Fin 0)
  /\ (forall s q, Number s = Fin q -> (1 <= q)%Q -> fail_of (QStr s) = Fin 1)
  /\ (forall s q, Number s = Fin q -> (0 < q)%Q -> (q < 1)%Q ->
        fail_of (QStr s) = Fin q)
  /\ (forall s, Number s = PosInf -> fail_of (QStr s) = Fin 1)
  /\ (forall s, Number s = NegInf -> fail_of (QStr s) = Fin 0).
Proof.
  assert (Hlt : forall a b, (a < b)%Q -> Qltb a b = true).
  { intros a b H. unfold Qltb. destruct (Qle_bool b a) eqn:Hb; [|reflexivity].
    apply Qle_bool_iff in Hb. by apply Qle_not_lt in Hb. }
  assert (Hge : forall a b, (b <= a)%Q -> Qltb a b = false).
  { intros a b H. unfold Qltb. apply Qle_bool_iff in H. by rewrite H. }
  repeat split; try reflexivity.
  - intros s q Hn Hq. unfold fail_of. rewrite Hn. cbn.
    rewrite (Hlt q 1%Q) by (eapply Qle_lt_trans; [exact Hq | reflexivity]).
    cbn. by rewrite (Hge 0%Q q Hq).
  - intros s q Hn Hq. unfold fail_of. rewrite Hn. cbn.
    rewrite (Hge q 1%Q Hq). cbn. by rewrite (Hlt 0%Q 1%Q).
  - intros s q Hn H0 H1. unfold fail_of. rewrite Hn. cbn.
    rewrite (Hlt q 1%Q H1). cbn. by rewrite (Hlt 0%Q q H0).
  - intros s Hn. unfold fail_of. by rewrite Hn.
  - intros s Hn. unfold fail_of. by rewrite Hn.
Qed.

(** ** The frames on the wire *)

Lemma append_cons c (s t : string) : String c s ++ t = String c (s ++ t).
Proof. reflexivity. Qed.

Lemma append_nil (t : string) : "" ++ t = t.
Proof. reflexivity. Qed.

Lemma append_assoc_string (a b c : string) : (a ++ b) ++ c = a ++ b ++ c.
Proof.
  induction a as [|ch a IH]; [reflexivity|]. by rewrite !append_cons, IH.
Qed.

(** Two texts that agree up to and after their first line feed. *)
Lemma split_at_line_feed s1 : forall s2 t1 t2,
  one_line s1 = true -> one_line s2 = true ->
  s1 ++ newline ++ t1 = s2 ++ newline ++ t2 -> s1 = s2 /\ t1 = t2.
Proof.
  unfold newline.
  induction s1 as [|c s1 IH]; intros s2 t1 t2 H1 H2 Heq.
  - destruct s2 as [|c2 s2]; rewrite ?append_cons, ?append_nil in Heq.
    + injection Heq as ->. by split.
    + injection Heq as <- _. cbn in H2. discriminate.
  - destruct s2 as [|c2 s2]; rewrite ?append_cons, ?append_nil in Heq.
    + injection Heq as -> _. cbn in H1. discriminate.
    + injection Heq as -> Heq. cbn in H1, H2.
      apply andb_true_iff in H1 as [_ H1]. apply andb_true_iff in H2 as [_ H2].
      destruct (IH s2 t1 t2 H1 H2 Heq) as [-> ->]. by split.
Qed.

Lemma wire_cons e d l :
  wire ((e, d) :: l)
  = "event: " ++ e ++ newline ++ "data: " ++ d ++ newline ++ newline ++ wire l.
Proof.
  unfold wire. cbn [flat_map fst snd sseWrite_chunks app fold_right].
  by rewrite !append_assoc_string.
Qed.

(** X4: the frames of [sseWrite] delimit themselves: two lists of events,
    with names and serialized data free of line feeds, that give the same
    text on the wire are the same list. *)
Theorem wire_injective l1 : forall l2,
  Forall (fun e => one_line (fst e) = true /\ one_line (snd e) = true) l1 ->
  Forall (fun e => one_line (fst e) = true /\ one_line (snd e) = true) l2 ->
  wire l1 = wire l2 -> l1 = l2.
Proof.
  induction l1 as [|[e1 d1] l1 IH]; intros [|[e2 d2] l2] H1 H2 Heq.
  - reflexivity.
  - rewrite wire_cons, ?append_cons in Heq. discriminate.
  - rewrite wire_cons, ?append_cons in Heq. discriminate.
  - rewrite !wire_cons in Heq.
    apply Forall_cons in H1 as [[He1 Hd1] H1].
    apply Forall_cons in H2 as [[He2 Hd2] H2]. cbn [fst snd] in *.
    rewrite ?append_cons, ?append_nil in Heq. injection Heq as Heq.
    apply split_at_line_feed in Heq as [-> Heq]; [|done..].
    rewrite ?append_cons, ?append_nil in Heq. injection Heq as Heq.
    apply split_at_line_feed in Heq as [-> Heq]; [|done..].
    unfold newline in Heq. rewrite ?append_cons, ?append_nil in Heq.
    injection Heq as Heq.
    by rewrite (IH l2 H1 H2 Heq).
Qed.

(** ** What a run has written, transition by transition *)

Lemma events_upto_S x plan dn a n :
  events_upto x plan dn a (S n)
  = (events_upto x plan dn a n ++ [progress_event a (S n)])%list.
Proof.
  unfold events_upto, progress_events. rewrite seq_S, map_app. cbn [map Nat.add].
  rewrite <- !app_assoc. by rewrite <- app_comm_cons.
Qed.

Lemma events_upto_full x plan dn a :
  (header x plan ++ flat_map agent_events (dn ++ [a]))%list
  = (events_upto x plan dn a (Agent.steps a) ++ [complete_event a])%list.
Proof.
  rewrite flat_map_app. cbn [flat_map]. rewrite app_nil_r.
  unfold events_upto, agent_events. rewrite <- !app_assoc.
  by rewrite <- app_comm_cons.
Qed.

Lemma written_enter x plan rest : forall d,
  plan = (d ++ rest)%list ->
  (header x plan ++ flat_map agent_events d)%list
    `prefix_of` written (res (call_in x plan (enter d rest))).
Proof.
  induction rest as [|a rest IH]; intros d Hplan; cbn [enter].
  - rewrite app_nil_r in Hplan. subst d. cbn [call_in res written].
    rewrite app_assoc. by apply prefix_app_r.
  - destruct (1 <=? Agent.steps a)%nat.
    + cbn [call_in res written]. unfold events_upto. rewrite !app_assoc.
      by apply prefix_app_r.
    + etransitivity; [|apply IH; by rewrite <- app_assoc].
      apply prefix_app. rewrite flat_map_app. by apply prefix_app_r.
Qed.

(** The events of a run only grow when its timer fires. *)
Lemma written_next_phase x plan r ph :
  phase_ok (x_failRate x) plan ph ->
  written (res (call_in x plan ph))
    `prefix_of` written (res (call_in x plan (next_phase x r ph))).
Proof.
  intros [_ Hshape]. destruct ph as [dn a n rest | dn a n rest |]; [|done..].
  destruct Hshape as [Hplan Hn]. cbn [next_phase].
  destruct (js_lt (Fin r) (x_failRate x)).
  - cbn [call_in res written]. by apply prefix_app_r.
  - destruct (S n + 1 <=? Agent.steps a)%nat eqn:Hmore.
    + cbn [call_in res written]. rewrite events_upto_S. by apply prefix_app_r.
    + apply Nat.leb_gt in Hmore. assert (S n = Agent.steps a) as Hlast by lia.
      etransitivity; [|apply written_enter; by rewrite <- app_assoc].
      rewrite events_upto_full, <- Hlast, events_upto_S. cbn [call_in res written].
      rewrite <- app_assoc. by apply prefix_app_r.
Qed.

Lemma ended_call_in x plan ph :
  ended (res (call_in x plan ph)) = true <-> awaiting (call_in x plan ph) = None.
Proof. destruct ph; cbn; split; congruence. Qed.

(** X5: the response of a stream request is append-only: whatever happens
    next, the events already written stay as they are, in place, and new
    ones come after them; and once the response has ended the call never
    changes again (no event is written after the end). *)
Theorem response_append_only w a i c :
  reachable w -> valid a -> calls w !! i = Some c ->
  exists c', calls (step w a) !! i = Some c'
             /\ written (res c) `prefix_of` written (res c')
             /\ (ended (res c) = true -> c' = c).
Proof.
  intros Hw Ha Hc. apply reachable_ok in Hw as [Hcalls _].
  rewrite Forall_lookup in Hcalls.
  destruct (Hcalls i c Hc) as [(x & ph & -> & Hok) | (jid & x & ->)].
  - eexists. split; [by apply step_lookup|]. split.
    + destruct a as [body nid | jobId q failRate now | j r]; cbn [phase_step]; [done..|].
      destruct (Nat.eqb i j); [by apply written_next_phase | done].
    + intros Hend. apply ended_call_in in Hend.
      pose proof (step_lookup_idle w a i _ Hc Hend) as Hidle.
      rewrite (step_lookup w a i x ph Hc Hok) in Hidle. by injection Hidle.
  - exists (replay_call jid (completed_job x (plan_of x))).
    split; [by apply step_lookup_idle|]. by split.
Qed.

(** X6: in every state of the server a response has ended exactly when
    its call awaits no timer; for a live run that is exactly when its job
    is 'completed' or 'error', and a job that is 'running' always has its
    timer pending; the response of a replay has always ended. *)
Theorem ended_iff_terminal w i c :
  reachable w -> calls w !! i = Some c ->
  (ended (res c) = true <-> awaiting c = None)
  /\ (forall j, job c = Some j ->
        (ended (res c) = true
         <-> Job.status j = "completed" \/ Job.status j = "error")
        /\ (Job.status j = "running" <-> is_Some (awaiting c)))
  /\ (job c = None -> ended (res c) = true).
Proof.
  intros Hw Hc. apply reachable_ok in Hw as [Hcalls _].
  rewrite Forall_lookup in Hcalls.
  destruct (Hcalls i c Hc) as [(x & ph & -> & Hok) | (jid & x & ->)].
  - split; [apply ended_call_in|]. split; [|by destruct ph].
    intros j Hj. destruct ph; cbn in Hj; injection Hj as <-; cbn;
      (split; split; try discriminate; try (intros [? | ?]; discriminate);
       try (intros [? ?]; discriminate); eauto).
  - split; [done|]. split; [intros j Hj; discriminate | done].
Qed.

Lemma replay_events_names jobId existing :
  Forall (fun e => In (event e) progress_names)
    ([ {| event := "job-start"; data := JobStartData jobId (Job.createdAt existing) |};
       {| event := "plan"; data := PlanData (replay_plan existing) |} ]
     ++ flat_map replay_agent (Job.agents existing)).
Proof.
  apply Forall_app. split.
  - constructor; [cbn; auto 10|]. constructor; [cbn; auto 10 | constructor].
  - induction (Job.agents existing) as [|r runs IH]; cbn [flat_map]; [constructor|].
    apply Forall_app. split; [|exact IH].
    repeat (constructor; [cbn; auto 10|]). constructor.
Qed.

(** X7: every response begins with [job-start] and [plan]; it holds one
    terminal event ([job-complete] or [job-error]) if it has ended and
    none otherwise, never both kinds; and the terminal event is its last
    event. *)
Theorem one_terminal_event w i c :
  reachable w -> calls w !! i = Some c ->
  names (take 2 (written (res c))) = ["job-start"; "plan"]
  /\ (count_event "job-complete" (written (res c))
      + count_event "job-error" (written (res c))
      = if ended (res c) then 1 else 0)%nat
  /\ (ended (res c) = true ->
      exists evs e, written (res c) = (evs ++ [e])%list
                    /\ (event e = "job-complete" \/ event e = "job-error")).
Proof.
  intros Hw Hc. apply reachable_ok in Hw as [Hcalls _].
  rewrite Forall_lookup in Hcalls.
  assert (Hnone : forall name evs,
            String.eqb name "job-start" || String.eqb name "plan"
            || String.eqb name "agent-start" || String.eqb name "agent-progress"
            || String.eqb name "agent-complete" = false ->
            Forall (fun e => In (event e) progress_names) evs ->
            count_event name evs = 0%nat).
  { intros name evs Hname Hevs.
    apply (count_event_none name progress_names); [exact Hevs|].
    by apply not_progress_name. }
  destruct (Hcalls i c Hc) as [(x & ph & -> & Hok) | (jid & x & ->)].
  - destruct ph as [dn a n rest | dn a n rest |]; cbn [call_in res written ended].
    + pose proof (Hnone "job-complete" _ eq_refl
                    (events_upto_names x (plan_of x) dn a n)) as H1.
      pose proof (Hnone "job-error" _ eq_refl
                    (events_upto_names x (plan_of x) dn a n)) as H2.
      split; [reflexivity|]. split; [by rewrite H1, H2 | discriminate].
    + pose proof (Hnone "job-complete" _ eq_refl
                    (events_upto_names x (plan_of x) dn a n)) as H1.
      pose proof (Hnone "job-error" _ eq_refl
                    (events_upto_names x (plan_of x) dn a n)) as H2.
      split; [reflexivity|]. split.
      * rewrite !count_event_app. by rewrite H1, H2.
      * intros _. eexists _, _. split; [reflexivity|]. by right.
    + assert (Hevs : Forall (fun e => In (event e) progress_names)
                       (header x (plan_of x) ++ flat_map agent_events (plan_of x))).
      { apply Forall_app. split; [apply header_names | apply flat_agent_events_names]. }
      pose proof (Hnone "job-complete" _ eq_refl Hevs) as H1.
      pose proof (Hnone "job-error" _ eq_refl Hevs) as H2.
      split; [reflexivity|]. split.
      * rewrite app_assoc.
        rewrite (count_event_app "job-complete"
                   (header x (plan_of x) ++ flat_map agent_events (plan_of x))).
        rewrite (count_event_app "job-error"
                   (header x (plan_of x) ++ flat_map agent_events (plan_of x))).
        by rewrite H1, H2.
      * intros _. eexists _, _. split; [by rewrite app_assoc|]. by left.
  - cbn [replay_call res written ended]. unfold replay_events.
    pose proof (Hnone "job-complete" _ eq_refl
                  (replay_events_names jid (completed_job x (plan_of x)))) as H1.
    pose proof (Hnone "job-error" _ eq_refl
                  (replay_events_names jid (completed_job x (plan_of x)))) as H2.
    split; [reflexivity|]. split.
    + rewrite app_assoc.
      match goal with
      | |- context [count_event _ (?l ++ [?e])] =>
          rewrite (count_event_app "job-complete" l [e]),
            (count_event_app "job-error" l [e])
      end.
      by rewrite H1, H2.
    + intros _. eexists _, _. split; [by rewrite app_assoc|]. by left.
Qed.

(** ** The agent records of a job, transition by transition *)

Lemma agents_enter x plan rest : forall d,
  plan = (d ++ rest)%list ->
  map completed_run d `prefix_of` job_agents (call_in x plan (enter d rest)).
Proof.
  induction rest as [|a rest IH]; intros d Hplan; cbn [enter].
  - rewrite app_nil_r in Hplan. by subst d.
  - destruct (1 <=? Agent.steps a)%nat.
    + rewrite call_in_agents. by apply prefix_app_r.
    + etransitivity; [|apply IH; by rewrite <- app_assoc].
      rewrite map_app. by apply prefix_app_r.
Qed.

(** The records after the timer fired: those of the agents that were
    complete, then the record of the current agent, failed, one step
    further or complete, then those of agents started since. *)
Lemma agents_next_phase x plan r dn a n rest :
  plan = (dn ++ a :: rest)%list -> (n < Agent.steps a)%nat ->
  exists rec tail,
    job_agents (call_in x plan (next_phase x r (Suspended dn a n rest)))
    = (map completed_run dn ++ rec :: tail)%list
    /\ (rec = run_after "failed" a n \/ rec = run_after "running" a (S n)
        \/ (S n = Agent.steps a /\ rec = completed_run a)).
Proof.
  intros Hplan Hn. cbn [next_phase].
  destruct (js_lt (Fin r) (x_failRate x)).
  - exists (run_after "failed" a n), []. split; [by rewrite call_in_agents | by left].
  - destruct (S n + 1 <=? Agent.steps a)%nat eqn:Hmore.
    + exists (run_after "running" a (S n)), [].
      split; [by rewrite call_in_agents | right; by left].
    + apply Nat.leb_gt in Hmore.
      destruct (agents_enter x plan rest (dn ++ [a])) as [tail Htail];
        [by rewrite <- app_assoc|].
      exists (completed_run a), tail. split.
      * rewrite Htail, map_app, <- app_assoc. reflexivity.
      * right; right. split; [lia | reflexivity].
Qed.

Lemma progress_at_mono n t :
  (1 <= t <= 3)%nat -> (n < t)%nat ->
  (match n with O => 0 | S _ => progress_at n t end <= progress_at (S n) t)%Z.
Proof.
  intros Ht Hn.
  assert (Hc : (t = 1 \/ t = 2 \/ t = 3)%nat) by lia.
  destruct Hc as [-> | [-> | ->]];
    destruct n as [|[|[|n]]]; try lia; by vm_compute.
Qed.

Lemma seq_prefix start n m : (n <= m)%nat -> seq start n `prefix_of` seq start m.
Proof.
  intros H. replace m with (n + (m - n))%nat by lia. rewrite seq_app.
  by apply prefix_app_r.
Qed.

Lemma map_prefix {A B} (f : A -> B) (l1 l2 : list A) :
  l1 `prefix_of` l2 -> map f l1 `prefix_of` map f l2.
Proof. intros [k ->]. rewrite map_app. by apply prefix_app_r. Qed.

(** X8: the agent records of a job are, in order, the first agents of the
    plan that its response announced, a record for each agent started so
    far; all but the last are 'completed'; and a job that is 'completed'
    has a record for every agent of the plan. *)
Theorem agent_records_follow_plan w i c j plan :
  reachable w -> calls w !! i = Some c -> job c = Some j ->
  written (res c) !! 1%nat = Some {| event := "plan"; data := PlanData plan |} ->
  map Run.id (Job.agents j) `prefix_of` map Agent.id plan
  /\ (forall n rec, Job.agents j !! n = Some rec ->
        (S n < length (Job.agents j))%nat -> Run.status rec = "completed")
  /\ (Job.status j = "completed" -> length (Job.agents j) = length plan).
Proof.
  intros Hw Hc Hj Hplan. apply reachable_ok in Hw as [Hcalls _].
  rewrite Forall_lookup in Hcalls.
  destruct (Hcalls i c Hc) as [(x & ph & -> & [_ Hshape]) | (jid & x & ->)];
    [|discriminate].
  assert (plan = plan_of x) as ->.
  { destruct ph; cbn in Hplan; by injection Hplan as <-. }
  assert (Hids : forall l, map Run.id (map completed_run l) = map Agent.id l)
    by (intros; by rewrite map_map).
  assert (Hlast : forall dn a st n k rec,
            (map completed_run dn ++ [run_after st a n])%list !! k = Some rec ->
            (S k < length (map completed_run dn ++ [run_after st a n]))%nat ->
            Run.status rec = "completed").
  { intros dn a st n k rec Hk Hlt. rewrite length_app, length_map in Hlt. cbn in Hlt.
    apply lookup_last_run in Hk as [(_ & a' & _ & ->) | [-> _]]; [reflexivity | lia]. }
  destruct ph as [dn a n rest | dn a n rest |]; cbn in Hj; injection Hj as <-;
    cbn [Job.agents Job.status].
  - destruct Hshape as [Hp _]. rewrite Hp. split; [|split; [apply Hlast | discriminate]].
    rewrite !map_app, (Hids dn). apply prefix_app. by exists (map Agent.id rest).
  - destruct Hshape as (Hp & _). rewrite Hp.
    split; [|split; [apply Hlast | discriminate]].
    rewrite !map_app, (Hids dn). apply prefix_app. by exists (map Agent.id rest).
  - unfold completed_job. cbn [Job.agents Job.status].
    split; [by rewrite Hids|]. split; [|intros _; by rewrite length_map].
    intros k rec Hk _. by apply lookup_completed_run in Hk as (a' & _ & ->).
Qed.

(** X9: an agent record is never taken back: across any transition it
    keeps its place, its id, name and role, its progress does not
    decrease, and its log lines stay, new ones coming after them; its
    progress is always between 0 and 100. *)
Theorem agent_record_grows w a i n rec :
  reachable w -> valid a -> run_at w i n = Some rec ->
  (0 <= Run.progress rec <= 100)%Z
  /\ exists rec', run_at (step w a) i n = Some rec'
       /\ Run.id rec' = Run.id rec /\ Run.name rec' = Run.name rec
       /\ Run.role rec' = Run.role rec
       /\ (Run.progress rec <= Run.progress rec')%Z
       /\ Run.logs rec `prefix_of` Run.logs rec'.
Proof.
  intros Hw Ha H. apply reachable_ok in Hw as [Hcalls _].
  rewrite Forall_lookup in Hcalls. unfold run_at in *.
  destruct (calls w !! i) as [c|] eqn:Hc; [|discriminate].
  destruct (Hcalls i c Hc) as [(x & ph & -> & Hok) | (jid & x & ->)]; [|discriminate].
  pose proof (planAgents_steps (x_requestText x)) as Hs. fold (plan_of x) in Hs.
  assert (Hfull : forall b, b ∈ plan_of x ->
            Run.progress (completed_run b) = 100%Z).
  { intros b Hb. rewrite Forall_forall in Hs. specialize (Hs b Hb). cbn.
    unfold progress_after. destruct (Agent.steps b) eqn:Hk; [lia|].
    apply progress_at_full. lia. }
  rewrite (step_lookup w a i x ph Hc Hok).
  assert (Hsame : forall ph', ph' = ph ->
            (0 <= Run.progress rec <= 100)%Z ->
            (0 <= Run.progress rec <= 100)%Z
            /\ exists rec', job_agents (call_in x (plan_of x) ph') !! n = Some rec'
                 /\ Run.id rec' = Run.id rec /\ Run.name rec' = Run.name rec
                 /\ Run.role rec' = Run.role rec
                 /\ (Run.progress rec <= Run.progress rec')%Z
                 /\ Run.logs rec `prefix_of` Run.logs rec').
  { intros ph' -> Hb. split; [exact Hb|]. exists rec. by repeat split. }
  destruct Hok as [_ Hshape]. rewrite call_in_agents in H.
  destruct ph as [dn b k rest | dn b k rest |].
  - destruct Hshape as [Hplan Hk].
    assert (Hb : (1 <= Agent.steps b <= 3)%nat).
    { rewrite Hplan in Hs. apply Forall_app in Hs as [_ Hs].
      by apply Forall_cons in Hs as [Hb _]. }
    assert (Hbound : (0 <= Run.progress rec <= 100)%Z).
    { apply lookup_last_run in H as [(_ & a' & Ha' & ->) | [_ ->]].
      - rewrite (Hfull a'); [lia|]. rewrite Hplan. apply elem_of_app. by left.
      - cbn. pose proof (progress_after_partial b k Hb Hk). lia. }
    destruct a as [body nid | jobId q failRate now | j0 r0];
      [by apply Hsame | by apply Hsame |].
    cbn [phase_step]. destruct (Nat.eqb i j0); [|by apply Hsame].
    split; [exact Hbound|].
    destruct (agents_next_phase x (plan_of x) r0 dn b k rest Hplan Hk)
      as (rec1 & tail & -> & Hrec1).
    apply lookup_app_Some in H as [H | [Hge H]].
    + exists rec. split; [by apply lookup_app_l_Some | by repeat split].
    + rewrite length_map in Hge, H.
      destruct (n - length dn)%nat as [|m] eqn:Hm; cbn in H; [|discriminate].
      injection H as <-. assert (n = length dn) as -> by lia.
      exists rec1. split.
      * rewrite lookup_app_r by (by rewrite length_map).
        by rewrite length_map, Nat.sub_diag.
      * destruct Hrec1 as [-> | [-> | [Hlast ->]]];
          cbn [Run.id Run.name Run.role Run.progress Run.logs run_after
               completed_run Run.set_output].
        -- repeat split; [lia | done].
        -- repeat split.
           ++ unfold progress_after. apply (progress_at_mono k _ Hb Hk).
           ++ apply map_prefix, seq_prefix. lia.
        -- repeat split.
           ++ unfold progress_after.
              pose proof (progress_at_mono k _ Hb Hk) as Hmono.
              revert Hmono. rewrite <- Hlast. intros Hmono. exact Hmono.
           ++ apply map_prefix, seq_prefix. lia.
  - destruct Hshape as (Hplan & Hk & _).
    assert (Hb : (1 <= Agent.steps b <= 3)%nat).
    { rewrite Hplan in Hs. apply Forall_app in Hs as [_ Hs].
      by apply Forall_cons in Hs as [Hb _]. }
    apply Hsame.
    + destruct a; cbn; try done; by destruct (Nat.eqb _ _).
    + apply lookup_last_run in H as [(_ & a' & Ha' & ->) | [_ ->]].
      * rewrite Hfull; [lia|]. rewrite Hplan. apply elem_of_app. by left.
      * cbn. pose proof (progress_after_partial b k Hb Hk). lia.
  - apply Hsame.
    + destruct a; cbn; try done; by destruct (Nat.eqb _ _).
    + apply lookup_completed_run in H as (a' & Ha' & ->). rewrite (Hfull a' Ha'). lia.
Qed.

(** ** The record of a completed job *)

(** X10: a job has a result exactly when it is 'completed', at whatever
    failure rate it ran; then every agent record is 'completed' with
    progress 100 and an output, the records are those of the plan of the
    request that the result echoes, the summary joins their outputs, the
    artifacts are the two fixed ones, and the last event of the response
    is the [job-complete] that carries the stored result. *)
Theorem completed_job_result w i c j :
  reachable w -> calls w !! i = Some c -> job c = Some j ->
  (is_Some (Job.result j) <-> Job.status j = "completed")
  /\ (Job.status j = "completed" ->
      exists result,
        Job.result j = Some result
        /\ Result.title result = "Task Result"
        /\ Result.artifacts result = artifacts
        /\ Result.synthesizedSummary result
           = String.concat newline (map summary_of (Job.agents j))
        /\ map Run.id (Job.agents j)
           = map Agent.id (planAgents toLowerCase (Result.request result))
        /\ Forall (fun rec => Run.status rec = "completed"
                              /\ Run.progress rec = 100%Z
                              /\ is_Some (Run.output rec)) (Job.agents j)
        /\ last (written (res c))
           = Some {| event := "job-complete";
                     data := JobCompleteData (Job.id j) (Some result) |}).
Proof.
  intros Hw Hc Hj. apply reachable_ok in Hw as [Hcalls _].
  rewrite Forall_lookup in Hcalls.
  destruct (Hcalls i c Hc) as [(x & ph & -> & _) | (jid & x & ->)]; [|discriminate].
  destruct ph as [dn a n rest | dn a n rest |]; cbn in Hj; injection Hj as <-.
  - split; [split; [intros [? ?]|]; discriminate | discriminate].
  - split; [split; [intros [? ?]|]; discriminate | discriminate].
  - split; [by split|]. intros _. exists (final_result x (plan_of x)).
    unfold completed_job. cbn [Job.result Job.agents Job.id call_in res written].
    split; [reflexivity|]. split; [reflexivity|]. split; [reflexivity|].
    split; [cbn; by rewrite summaries_completed|].
    split; [apply completed_runs_ids|]. split.
    + pose proof (completed_runs_full (plan_of x) (planAgents_steps _)) as Hfull.
      rewrite Forall_forall in *. intros rec Hrec. destruct (Hfull rec Hrec) as [H1 H2].
      split; [exact H1|]. split; [exact H2|].
      apply list_elem_of_In, in_map_iff in Hrec as (b & <- & _). by eexists.
    + rewrite app_assoc. by rewrite last_snoc.
Qed.

(** ** The registry *)

Lemma stream_jobs jobId q failRate now w id :
  is_Some (jobs (stream jobId q failRate now w) !! id)
  <-> is_Some (jobs w !! id) \/ id = jobId.
Proof.
  destruct (is_completed (jobs_get w jobId)) eqn:Hdone.
  - unfold is_completed in Hdone.
    destruct (jobs_get w jobId) as [existing|] eqn:Hget; [|done].
    apply String.eqb_eq in Hdone.
    rewrite (stream_replay _ _ _ _ _ existing Hget Hdone). proj.
    split; [by left|]. intros [H | ->]; [exact H|].
    unfold jobs_get in Hget. by destruct (jobs w !! jobId).
  - rewrite stream_live by exact Hdone. proj.
    destruct (decide (jobId = id)) as [->|Hne].
    + rewrite lookup_insert_eq. split; [by right | by eexists].
    + rewrite lookup_insert_ne by exact Hne. split; [by left|].
      intros [H | ->]; [exact H | done].
Qed.

Lemma run_jobs l : forall w id,
  is_Some (jobs (run w l) !! id) <-> is_Some (jobs w !! id) \/ streamed id l = true.
Proof.
  induction l as [|a l IH]; intros w id; cbn [run fold_left streamed existsb].
  - split; [by left | by intros [H|H]].
  - fold (run (step w a) l). rewrite IH. fold (streamed id l).
    destruct a as [body nid | jobId q failRate now | j r]; cbn [step].
    + cbn. tauto.
    + rewrite stream_jobs, orb_true_iff, String.eqb_eq.
      split; [intros [[H | ->] | H] | intros [H | [-> | H]]]; tauto.
    + rewrite timer_jobs. cbn. tauto.
Qed.

(** X11: the registry knows exactly the identities for which a stream was
    opened: a lookup finds a job if and only if some stream request named
    the identity (a submission registers nothing), and the job it finds
    carries that identity. *)
Theorem registry_lookup l jobId :
  Forall valid l ->
  (is_Some (jobs_get (run initial l) jobId) <-> streamed jobId l = true)
  /\ (forall j, jobs_get (run initial l) jobId = Some j -> Job.id j = jobId).
Proof.
  intros Hl.
  assert (Hok : world_ok (run initial l))
    by (apply world_ok_run; [apply world_ok_initial | exact Hl]).
  destruct Hok as [_ Hjobs].
  assert (Hget : is_Some (jobs_get (run initial l) jobId)
                 <-> is_Some (jobs (run initial l) !! jobId)).
  { unfold jobs_get. destruct (jobs (run initial l) !! jobId) as [i|] eqn:Hi.
    - destruct (Hjobs jobId i Hi) as (c & j & -> & -> & _). split; by eexists.
    - split; intros [? ?]; discriminate. }
  split.
  - rewrite Hget, run_jobs. unfold initial. proj. rewrite lookup_empty.
    split; [intros [[? ?] | H]; [discriminate | exact H] | by right].
  - intros j Hj. unfold jobs_get in Hj.
    destruct (jobs (run initial l) !! jobId) as [i|] eqn:Hi; [|discriminate].
    destruct (Hjobs jobId i Hi) as (c & j' & Hc & Hj' & Hid).
    rewrite Hc, Hj' in Hj. by injection Hj as <-.
Qed.

(** X12: a transition touches one call only.  A call changes only when
    its own timer fires; the registry entry of an identity changes only
    when a stream is opened for that identity; so a record that the
    registry returns is the same after a transition that is neither a
    stream request for its identity nor the timer of its run; and only a
    stream request adds a call. *)
Theorem transition_is_local w a :
  (forall i c, calls w !! i = Some c -> (forall r, a <> Timer i r) ->
     calls (step w a) !! i = Some c)
  /\ (forall id, (forall q failRate now, a <> Stream id q failRate now) ->
        jobs (step w a) !! id = jobs w !! id)
  /\ (forall id i j, jobs w !! id = Some i -> jobs_get w id = Some j ->
        (forall q failRate now, a <> Stream id q failRate now) ->
        (forall r, a <> Timer i r) ->
        jobs_get (step w a) id = Some j)
  /\ length (calls (step w a))
     = (length (calls w) + if is_stream a then 1 else 0)%nat.
Proof.
  assert (H1 : forall i c, calls w !! i = Some c -> (forall r, a <> Timer i r) ->
            calls (step w a) !! i = Some c).
  { intros i c Hc Hne. destruct a as [body nid | jobId q failRate now | j r]; cbn [step].
    - exact Hc.
    - rewrite stream_lookup_old; [exact Hc | by eapply lookup_lt_Some].
    - rewrite timer_lookup_ne; [exact Hc|]. intros ->. by apply (Hne r). }
  assert (H2 : forall id, (forall q failRate now, a <> Stream id q failRate now) ->
            jobs (step w a) !! id = jobs w !! id).
  { intros id Hne. destruct a as [body nid | jobId q failRate now | j r]; cbn [step].
    - reflexivity.
    - destruct (is_completed (jobs_get w jobId)) eqn:Hdone.
      + unfold is_completed in Hdone.
        destruct (jobs_get w jobId) as [existing|] eqn:Hget; [|done].
        apply String.eqb_eq in Hdone.
        by rewrite (stream_replay _ _ _ _ _ existing Hget Hdone).
      + rewrite stream_live by exact Hdone. proj. apply lookup_insert_ne.
        intros ->. by apply (Hne q failRate now).
    - by rewrite timer_jobs. }
  split; [exact H1|]. split; [exact H2|]. split.
  - intros id i j Hi Hj Hs Ht. unfold jobs_get in *. rewrite (H2 id Hs), Hi in *.
    destruct (calls w !! i) as [c|] eqn:Hc; [|discriminate].
    by rewrite (H1 i c Hc Ht).
  - destruct a as [body nid | jobId q failRate now | j r]; cbn [step is_stream].
    + lia.
    + destruct (is_completed (jobs_get w jobId)) eqn:Hdone.
      * unfold is_completed in Hdone.
        destruct (jobs_get w jobId) as [existing|] eqn:Hget; [|done].
        apply String.eqb_eq in Hdone.
        rewrite (stream_replay _ _ _ _ _ existing Hget Hdone). proj.
        by rewrite length_app.
      * rewrite stream_live by exact Hdone. proj. by rewrite length_app.
    + unfold timer. destruct (calls w !! j) as [c|]; [|lia].
      destruct (awaiting c); [|lia]. unfold on_call. proj. rewrite length_alter. lia.
Qed.

(** ** Runs in which no draw fails *)

Lemma next_phase_not_failed x r ph :
  js_lt (Fin r) (x_failRate x) = false -> is_failed ph = false ->
  is_failed (next_phase x r ph) = false.
Proof.
  intros Hr Hph. destruct ph as [dn a n rest | dn a n rest |]; [|discriminate|reflexivity].
  cbn [next_phase]. rewrite Hr.
  destruct (S n + 1 <=? Agent.steps a)%nat; [reflexivity|].
  destruct (enter (dn ++ [a]) rest) eqn:He; try reflexivity.
  by apply enter_not_failed in He.
Qed.

(** Each firing of the timer passes one step, until all have passed. *)
Lemma passed_phase_run i x plan l : forall ph,
  (forall r, unit_draw r -> js_lt (Fin r) (x_failRate x) = false) ->
  Forall valid l ->
  phase_ok (x_failRate x) plan ph -> is_failed ph = false ->
  passed plan (phase_run i x ph l)
  = Nat.min (total_steps plan) (passed plan ph + fires i l).
Proof.
  intros ph Hnf Hl. revert ph.
  induction Hl as [|act l Hact Hl IH]; intros ph Hok Hph.
  - cbn [phase_run fold_left fires].
    destruct ph as [dn a n rest | dn a n rest |]; [|discriminate|cbn; lia].
    apply passed_suspended in Hok. lia.
  - unfold phase_run in *. cbn [fold_left fires].
    destruct act as [body nid | jobId q failRate now | j r]; cbn [phase_step];
      try (by apply IH).
    destruct (Nat.eqb i j); [|by apply IH].
    rewrite (IH (next_phase x r ph) (phase_ok_next x plan _ r Hok Hact)
               (next_phase_not_failed x r ph (Hnf r Hact) Hph)).
    destruct ph as [dn a n rest | dn a n rest |]; [|discriminate|cbn; lia].
    pose proof Hok as [_ [Hplan Hn]].
    rewrite (passed_next_phase x plan r dn a n rest Hplan Hn (Hnf r Hact)). lia.
Qed.

(** The phase does not depend on a rate at which no draw fails. *)
Lemma phase_run_same_rate i x x' l : forall ph,
  (forall r, unit_draw r -> js_lt (Fin r) (x_failRate x) = false) ->
  (forall r, unit_draw r -> js_lt (Fin r) (x_failRate x') = false) ->
  Forall valid l ->
  phase_run i x ph l = phase_run i x' ph l.
Proof.
  intros ph Hx Hx' Hl. revert ph.
  induction Hl as [|act l Hact Hl IH]; intros ph; [reflexivity|].
  unfold phase_run in *. cbn [fold_left].
  destruct act as [body nid | jobId q failRate now | j r]; cbn [phase_step];
    try apply IH.
  destruct (Nat.eqb i j); [|apply IH].
  replace (next_phase x' r ph) with (next_phase x r ph); [apply IH|].
  destruct ph; cbn [next_phase]; [|reflexivity|reflexivity].
  by rewrite (Hx r Hact), (Hx' r Hact).
Qed.

Lemma count_progress_events a n :
  count_event "agent-progress" (progress_events a n) = n.
Proof.
  assert (H : forall l, count_event "agent-progress" (map (progress_event a) l) = length l).
  { induction l as [|k l IH]; [reflexivity|]. unfold count_event in *. cbn. by rewrite IH. }
  unfold progress_events. by rewrite H, length_seq.
Qed.

Lemma count_progress_agents l :
  count_event "agent-progress" (flat_map agent_events l) = total_steps l.
Proof.
  induction l as [|a l IH]; [reflexivity|]. cbn [flat_map total_steps fold_right].
  rewrite count_event_app. fold (total_steps l). rewrite IH. unfold agent_events.
  change (start_event a :: progress_events a (Agent.steps a) ++ [complete_event a])%list
    with ([start_event a] ++ progress_events a (Agent.steps a) ++ [complete_event a])%list.
  rewrite !count_event_app, count_progress_events. cbn. lia.
Qed.

Lemma count_progress_call x plan ph :
  count_event "agent-progress" (written (res (call_in x plan ph))) = passed plan ph.
Proof.
  destruct ph as [dn a n rest | dn a n rest |]; cbn [call_in res written passed].
  - unfold events_upto.
    change (start_event a :: progress_events a n)%list
      with ([start_event a] ++ progress_events a n)%list.
    rewrite !count_event_app, count_progress_agents, count_progress_events. cbn. lia.
  - unfold events_upto.
    change (start_event a :: progress_events a n)%list
      with ([start_event a] ++ progress_events a n)%list.
    rewrite !count_event_app, count_progress_agents, count_progress_events. cbn. lia.
  - rewrite !count_event_app, count_progress_agents. cbn. lia.
Qed.

Lemma length_agent_events l :
  length (flat_map agent_events l) = (2 * length l + total_steps l)%nat.
Proof.
  induction l as [|a l IH]; [reflexivity|]. cbn [flat_map total_steps fold_right].
  fold (total_steps l). rewrite length_app, IH. unfold agent_events, progress_events.
  cbn [length]. rewrite length_app, length_map, length_seq. cbn. lia.
Qed.

(** X13: at failure rate 0 the response counts the firings of the timer:
    after the timer of the run has fired [k] times, under any
    interleaving with other requests, the response holds exactly
    min(total steps, k) [agent-progress] events; it has ended if and only
    if the timer fired at least once for every step of the plan; and the
    response of the ended run has 3 events for the job, 2 for each agent
    and 1 for each step. *)
Theorem progress_counts_firings w jobId q failRate now l :
  is_completed (jobs_get w jobId) = false ->
  fail_of failRate = Fin 0 -> Forall valid l ->
  exists c,
    calls (run (stream jobId q failRate now w) l) !! length (calls w) = Some c
    /\ count_event "agent-progress" (written (res c))
       = Nat.min (total_steps (planAgents toLowerCase (text_of q)))
           (fires (length (calls w)) l)
    /\ (ended (res c) = true
        <-> (total_steps (planAgents toLowerCase (text_of q))
             <= fires (length (calls w)) l)%nat)
    /\ (ended (res c) = true ->
        length (written (res c))
        = (3 + 2 * length (planAgents toLowerCase (text_of q))
           + total_steps (planAgents toLowerCase (text_of q)))%nat).
Proof.
  intros Hnot Hrate Hl.
  rewrite (stream_run jobId q failRate now w l Hnot Hl).
  set (x := stream_args jobId q failRate now).
  change (planAgents toLowerCase (text_of q)) with (plan_of x).
  assert (Hok : phase_ok (x_failRate x) (plan_of x) (enter [] (plan_of x)))
    by (apply phase_ok_enter; [reflexivity | cbn; lia]).
  assert (Hstart : is_failed (enter [] (plan_of x)) = false)
    by (by destruct (enter_plan x) as (a & rest & _ & ->)).
  assert (Hnf : forall r, unit_draw r -> js_lt (Fin r) (x_failRate x) = false).
  { intros r Hr. cbn [x x_failRate stream_args]. rewrite Hrate.
    by apply rate_zero_passes. }
  pose proof (passed_phase_run (length (calls w)) x (plan_of x) l _ Hnf Hl Hok Hstart)
    as Hpassed.
  destruct (phase_run_failure_free (length (calls w)) x (plan_of x) l _ Hnf Hl Hok Hstart)
    as [Hfree _].
  assert (Hok' : phase_ok (x_failRate x) (plan_of x)
                   (phase_run (length (calls w)) x (enter [] (plan_of x)) l)).
  { clear Hpassed Hfree. revert Hok. generalize (enter [] (plan_of x)).
    induction Hl as [|act l Hact Hl IH]; intros ph Hph; [exact Hph|].
    unfold phase_run in *. cbn [fold_left]. apply IH.
    destruct act as [body nid | jobId' q' failRate' now' | j r]; cbn [phase_step];
      try exact Hph.
    destruct (Nat.eqb (length (calls w)) j); [|exact Hph].
    by apply phase_ok_next. }
  rewrite (passed_enter (plan_of x) (plan_of x) [] eq_refl) in Hpassed.
  cbn [total_steps fold_right Nat.add] in Hpassed.
  eexists. split; [reflexivity|].
  split; [by rewrite count_progress_call|].
  destruct (phase_run (length (calls w)) x (enter [] (plan_of x)) l)
    as [dn a n rest | dn a n rest |] eqn:Hph; [|discriminate|].
  - apply passed_suspended in Hok'. cbn [call_in res ended].
    split; [|discriminate]. split; [discriminate|]. intros Hle. lia.
  - cbn [call_in res ended written]. cbn [passed] in Hpassed.
    split; [split; [intros _; lia | reflexivity]|]. intros _.
    rewrite !length_app, length_agent_events. cbn. lia.
Qed.

(** X14: a failure rate that is not a number has the effect of no failure
    rate.  When [Number(failRate)] is NaN the clamp hands NaN to the
    runner, no draw is below it, and after any actions the response and
    the job of the run are those of the same request without [failRate]:
    the run never fails. *)
Theorem not_a_number_rate_never_fails w jobId q s now l :
  is_completed (jobs_get w jobId) = false ->
  Number s = NaN -> Forall valid l ->
  exists c c0,
    calls (run (stream jobId q (QStr s) now w) l) !! length (calls w) = Some c
    /\ calls (run (stream jobId q QAbsent now w) l) !! length (calls w) = Some c0
    /\ res c = res c0 /\ job c = job c0
    /\ count_event "job-error" (written (res c)) = 0%nat.
Proof.
  intros Hnot Hnan Hl.
  rewrite (stream_run jobId q (QStr s) now w l Hnot Hl).
  rewrite (stream_run jobId q QAbsent now w l Hnot Hl).
  set (x := stream_args jobId q (QStr s) now).
  set (x0 := stream_args jobId q QAbsent now).
  change (plan_of x0) with (plan_of x).
  assert (Hnf : forall r, unit_draw r -> js_lt (Fin r) (x_failRate x) = false).
  { intros r Hr. cbn [x x_failRate stream_args]. by rewrite (fail_of_NaN s Hnan). }
  assert (Hnf0 : forall r, unit_draw r -> js_lt (Fin r) (x_failRate x0) = false).
  { intros r Hr. by apply rate_zero_passes. }
  rewrite <- (phase_run_same_rate (length (calls w)) x x0 l _ Hnf Hnf0 Hl).
  assert (Hok : phase_ok (x_failRate x) (plan_of x) (enter [] (plan_of x)))
    by (apply phase_ok_enter; [reflexivity | cbn; lia]).
  assert (Hstart : is_failed (enter [] (plan_of x)) = false)
    by (by destruct (enter_plan x) as (a & rest & _ & ->)).
  destruct (phase_run_failure_free (length (calls w)) x (plan_of x) l _ Hnf Hl Hok Hstart)
    as [Hfree _].
  eexists. eexists. split; [reflexivity|]. split; [reflexivity|].
  destruct (phase_run (length (calls w)) x (enter [] (plan_of x)) l)
    as [dn a n rest | dn a n rest |] eqn:Hph; [|discriminate|].
  - split; [reflexivity|]. split; [reflexivity|].
    apply (count_event_none _ progress_names);
      [apply events_upto_names | by apply not_progress_name].
  - split; [reflexivity|]. split; [reflexivity|].
    cbn [call_in res written]. rewrite app_assoc, count_event_app.
    rewrite (count_event_none "job-error" progress_names);
      [reflexivity | | by apply not_progress_name].
    apply Forall_app. split; [apply header_names | apply flat_agent_events_names].
Qed.

(** ** What a replay takes over from the live run *)

Lemma filter_carried_replay plan :
  List.filter carried_over (flat_map replay_agent (map completed_run plan))
  = map complete_event plan.
Proof. induction plan as [|a plan IH]; [reflexivity|]. cbn. by rewrite IH. Qed.

Lemma filter_carried_progress a l :
  List.filter carried_over (map (progress_event a) l) = [].
Proof. induction l as [|k l IH]; [reflexivity | exact IH]. Qed.

Lemma filter_carried_live plan :
  List.filter carried_over (flat_map agent_events plan) = map complete_event plan.
Proof.
  induction plan as [|a plan IH]; [reflexivity|]. cbn [flat_map map].
  rewrite List.filter_app, IH. unfold agent_events, progress_events.
  cbn [List.filter carried_over event start_event String.eqb Ascii.eqb Bool.eqb orb andb].
  by rewrite List.filter_app, filter_carried_progress.
Qed.

(** X15: the replay of a completed job against the live run that
    completed it.  The [job-start], [agent-complete] and [job-complete]
    events of the replay are those of the live response, data included
    (same identity and creation time, same outputs, same result); the
    plan that the replay announces is the live plan with every step count
    replaced by 1, which is never the live plan; and the replay has 3
    events for the job and 3 for each agent. *)
Theorem replay_carries_live_data w jobId existing :
  reachable w -> jobs_get w jobId = Some existing ->
  Job.status existing = "completed" ->
  exists i live plan,
    calls w !! i = Some live /\ job live = Some existing
    /\ written (res live) !! 1%nat = Some {| event := "plan"; data := PlanData plan |}
    /\ List.filter carried_over (replay_events jobId existing)
       = List.filter carried_over (written (res live))
    /\ replay_plan existing
       = map (fun a => Agent.mk (Agent.id a) (Agent.name a) (Agent.role a) 1) plan
    /\ replay_plan existing <> plan
    /\ length (replay_events jobId existing) = (3 + 3 * length plan)%nat.
Proof.
  intros Hw Hget Hst. apply reachable_ok in Hw.
  destruct (jobs_get_completed w jobId existing Hw Hget Hst) as (i & x & Hi & Hc & ->).
  assert (Hid : x_jobId x = jobId).
  { destruct Hw as [_ Hjobs]. destruct (Hjobs jobId i Hi) as (c & j & Hc' & Hj & Hid).
    rewrite Hc in Hc'. injection Hc' as <-. cbn in Hj. injection Hj as <-. exact Hid. }
  exists i, (call_in x (plan_of x) Completed), (plan_of x).
  assert (Hplan : replay_plan (completed_job x (plan_of x))
                  = map (fun a => Agent.mk (Agent.id a) (Agent.name a) (Agent.role a) 1)
                      (plan_of x)).
  { unfold replay_plan, completed_job. cbn [Job.agents]. by rewrite map_map. }
  split; [exact Hc|]. split; [reflexivity|]. split; [reflexivity|].
  split; [|split; [exact Hplan|split]].
  - unfold replay_events, completed_job. cbn [Job.agents Job.createdAt Job.result].
    cbn [call_in res written]. unfold header, complete_job_event. rewrite Hid.
    rewrite !List.filter_app, filter_carried_replay, filter_carried_live. reflexivity.
  - rewrite Hplan. unfold plan_of. rewrite planAgents_cases.
    destruct (wants_finance _), (wants_engineer _); cbn; discriminate.
  - unfold replay_events, completed_job. cbn [Job.agents].
    rewrite !length_app. cbn [length].
    assert (Hlen : forall l, length (flat_map replay_agent l) = (3 * length l)%nat).
    { induction l as [|r l IH]; [reflexivity|]. cbn [flat_map length replay_agent app].
      rewrite IH. lia. }
    rewrite Hlen, length_map. lia.
Qed.

(** ** A second stream for an unfinished job *)

(** X16: a stream request for an identity whose job is still running, or
    ended in error, starts a second run beside the first.  The registry
    then returns a fresh job (running, created now, holding the new
    record of the first agent of the plan only, no result) owned by the
    new call; the call of the earlier run is left as it was; and whatever
    happens afterwards, the earlier run goes on exactly as it would have
    without the second stream. *)
Theorem attach_starts_second_run w jobId old q failRate now :
  reachable w -> jobs_get w jobId = Some old -> Job.status old <> "completed" ->
  exists i c_old c_new j a,
    jobs w !! jobId = Some i /\ calls w !! i = Some c_old /\ job c_old = Some old
    /\ i <> length (calls w)
    /\ jobs (stream jobId q failRate now w) !! jobId = Some (length (calls w))
    /\ calls (stream jobId q failRate now w) !! length (calls w) = Some c_new
    /\ job c_new = Some j
    /\ jobs_get (stream jobId q failRate now w) jobId = Some j
    /\ head (planAgents toLowerCase (text_of q)) = Some a
    /\ j = Job.mk jobId "running" now [fresh_run a] None
    /\ calls (stream jobId q failRate now w) !! i = Some c_old
    /\ forall l, Forall valid l ->
         calls (run (stream jobId q failRate now w) l) !! i = calls (run w l) !! i.
Proof.
  intros Hw Hget Hst. apply reachable_ok in Hw.
  assert (Hnot : is_completed (jobs_get w jobId) = false).
  { rewrite Hget. cbn [is_completed]. by apply String.eqb_neq. }
  pose proof Hget as Hget'. unfold jobs_get in Hget'.
  destruct (jobs w !! jobId) as [i|] eqn:Hi; [|discriminate].
  destruct (calls w !! i) as [c_old|] eqn:Hc; [|discriminate].
  assert (Hlt : (i < length (calls w))%nat) by (by eapply lookup_lt_Some).
  set (x := stream_args jobId q failRate now).
  destruct (enter_plan x) as (a & rest & Hplan & Henter).
  assert (Hnew : calls (stream jobId q failRate now w) !! length (calls w)
                 = Some (call_in x (plan_of x) (Suspended [] a 0 rest))).
  { rewrite stream_live by exact Hnot. proj. fold x. rewrite Henter.
    rewrite lookup_app_r by lia. by rewrite Nat.sub_diag. }
  assert (Hold : calls (stream jobId q failRate now w) !! i = Some c_old)
    by (by rewrite stream_lookup_old).
  exists i, c_old, (call_in x (plan_of x) (Suspended [] a 0 rest)),
    (Job.mk jobId "running" now [fresh_run a] None), a.
  assert (Hreg : jobs (stream jobId q failRate now w) !! jobId = Some (length (calls w))).
  { rewrite stream_live by exact Hnot. proj. by rewrite lookup_insert_eq. }
  split; [reflexivity|]. split; [exact Hc|]. split; [exact Hget'|].
  split; [lia|]. split; [exact Hreg|]. split; [exact Hnew|].
  split; [reflexivity|].
  split; [unfold jobs_get; by rewrite Hreg, Hnew|].
  split; [change (planAgents toLowerCase (text_of q)) with (plan_of x); by rewrite Hplan|].
  split; [reflexivity|]. split; [exact Hold|].
  intros l Hl. destruct Hw as [Hcalls _]. rewrite Forall_lookup in Hcalls.
  destruct (Hcalls i c_old Hc) as [(y & ph & Hlive) | (jid & y & ->)]; [|discriminate].
  destruct (live_call_run l w i c_old y ph Hc Hlive Hl) as (c1 & -> & -> & _).
  destruct (live_call_run l _ i c_old y ph Hold Hlive Hl) as (c2 & -> & -> & _).
  reflexivity.
Qed.

(** ** The page and the server *)

(** What the handlers do with the requests of the page. *)
Lemma handlers_serve_page (trim : string -> string) value nid w now l :
  is_completed (jobs_get w nid) = false -> Forall valid l ->
  (total_steps (planAgents toLowerCase (trim value))
   <= fires (length (calls w)) l)%nat ->
  match form_submit trim value with
  | None => trim value = ""
  | Some body =>
      trim value <> ""
      /\ submit (Some body) nid = Ok nid
      /\ exists c result,
           calls (run (step w (connectSSE nid (trim value) now)) l) !! length (calls w)
           = Some c
           /\ ended (res c) = true
           /\ count_event "job-error" (written (res c)) = 0%nat
           /\ last (written (res c))
              = Some {| event := "job-complete";
                        data := JobCompleteData nid (Some result) |}
           /\ Result.request result = trim value
  end.
Proof.
  intros Hnot Hl Hfires. unfold form_submit.
  destruct (String.eqb_spec (trim value) "") as [Hempty | Hne]; [exact Hempty|].
  split; [exact Hne|]. split.
  { unfold submit. cbn [request_of get_property String.eqb Ascii.eqb Bool.eqb andb].
    cbn [falsy is_string negb orb]. apply String.eqb_neq in Hne. by rewrite Hne. }
  unfold connectSSE. cbn [step].
  rewrite (stream_run nid (QStr (trim value)) QAbsent now w l Hnot Hl).
  set (x := stream_args nid (QStr (trim value)) QAbsent now).
  change (planAgents toLowerCase (trim value)) with (plan_of x) in Hfires.
  assert (Hok : phase_ok (x_failRate x) (plan_of x) (enter [] (plan_of x)))
    by (apply phase_ok_enter; [reflexivity | cbn; lia]).
  assert (Hstart : is_failed (enter [] (plan_of x)) = false)
    by (by destruct (enter_plan x) as (a & rest & _ & ->)).
  assert (Hnf : forall r, unit_draw r -> js_lt (Fin r) (x_failRate x) = false)
    by (intros r Hr; by apply rate_zero_passes).
  destruct (phase_run_failure_free (length (calls w)) x (plan_of x) l _ Hnf Hl Hok Hstart)
    as [_ Hdone].
  rewrite Hdone
    by (rewrite (passed_enter (plan_of x) (plan_of x) [] eq_refl); cbn; exact Hfires).
  exists (call_in x (plan_of x) Completed), (final_result x (plan_of x)).
  split; [reflexivity|]. split; [reflexivity|]. cbn [call_in res written]. split.
  { rewrite app_assoc, count_event_app.
    rewrite (count_event_none "job-error" progress_names);
      [reflexivity | | by apply not_progress_name].
    apply Forall_app. split; [apply header_names | apply flat_agent_events_names]. }
  split; [|reflexivity]. rewrite app_assoc. by rewrite last_snoc.
Qed.

(** X17: what the page sends is served, when it is delivered.  For any
    text of the form, the submit handler of the page posts nothing exactly
    when the trimmed text is empty.  Otherwise the page never gets the 400
    answer, and a body that the framework lets through to the handler is
    answered with the identity of [nanoid()].  If no completed job is
    registered under that identity and the stream request that
    [connectSSE] opens for it is delivered, the run is at failure rate 0
    on the trimmed text: once its timer has fired for every step, the
    response has ended without [job-error], with [job-complete] last,
    whose result echoes the trimmed text. *)
Theorem page_request_completes (trim : string -> string) (t : Transport)
    value nid w now l :
  is_completed (jobs_get w nid) = false -> Forall valid l ->
  (total_steps (planAgents toLowerCase (trim value))
   <= fires (length (calls w)) l)%nat ->
  match form_submit trim value with
  | None => trim value = ""
  | Some body =>
      trim value <> ""
      /\ (forall e, post_submit t body nid <> Delivered (BadRequest e))
      /\ (body_fits t body = true -> post_submit t body nid = Delivered (Ok nid))
      /\ (url_fits t nid (trim value) = true ->
          exists w' c result,
            get_stream t nid (trim value) now w = Delivered w'
            /\ calls (run w' l) !! length (calls w) = Some c
            /\ ended (res c) = true
            /\ count_event "job-error" (written (res c)) = 0%nat
            /\ last (written (res c))
               = Some {| event := "job-complete";
                         data := JobCompleteData nid (Some result) |}
            /\ Result.request result = trim value)
  end.
Proof.
  intros Hnot Hl Hfires.
  pose proof (handlers_serve_page trim value nid w now l Hnot Hl Hfires) as H.
  destruct (form_submit trim value) as [body|]; [|exact H].
  destruct H as (Hne & Hok & c & result & Hc & Hrest).
  split; [exact Hne|]. split; [|split].
  - intros e. unfold post_submit. destruct (body_fits t body); [|discriminate].
    rewrite Hok. discriminate.
  - intros Hfits. unfold post_submit. by rewrite Hfits, Hok.
  - intros Hfits. exists (step w (connectSSE nid (trim value) now)), c, result.
    split; [unfold get_stream; by rewrite Hfits|]. split; [exact Hc | exact Hrest].
Qed.

Lemma progress_events_in_range a n :
  (1 <= Agent.steps a <= 3)%nat -> (n <= Agent.steps a)%nat ->
  Forall progress_in_range (progress_events a n).
Proof.
  intros Ha Hn. unfold progress_events. apply Forall_forall. intros e He.
  apply list_elem_of_In, in_map_iff in He as (k & <- & Hk). apply in_seq in Hk.
  intros id p log Hdata. cbn [data progress_event] in Hdata. injection Hdata as _ <- _.
  destruct (decide (k = Agent.steps a)) as [->|Hlt].
  - rewrite progress_at_full by lia. lia.
  - pose proof (progress_at_partial k (Agent.steps a) Ha ltac:(lia)). lia.
Qed.

Lemma agents_events_in_range l :
  Forall (fun a => (1 <= Agent.steps a <= 3)%nat) l ->
  Forall progress_in_range (flat_map agent_events l).
Proof.
  induction 1 as [|a l Ha Hl IH]; cbn [flat_map]; [constructor|].
  apply Forall_app. split; [|exact IH]. unfold agent_events.
  constructor; [intros id p log Hdata; discriminate|].
  apply Forall_app. split; [by apply progress_events_in_range|].
  constructor; [intros id p log Hdata; discriminate | constructor].
Qed.

Lemma events_upto_in_range x plan dn a n rest :
  Forall (fun a => (1 <= Agent.steps a <= 3)%nat) plan ->
  plan = (dn ++ a :: rest)%list -> (n < Agent.steps a)%nat ->
  Forall progress_in_range (events_upto x plan dn a n).
Proof.
  intros Hplan -> Hn. apply Forall_app in Hplan as [Hdn Ha].
  apply Forall_cons in Ha as [Ha _]. unfold events_upto, header.
  constructor; [intros id p log Hdata; discriminate|].
  constructor; [intros id p log Hdata; discriminate|]. cbn [app].
  apply Forall_app. split; [by apply agents_events_in_range|].
  constructor; [intros id p log Hdata; discriminate|].
  apply progress_events_in_range; [exact Ha | lia].
Qed.

Lemma width_of_percentage p :
  (0 <= p <= 100)%Z -> updateProgress_width (Fin (inject_Z p)) = Fin (inject_Z p).
Proof.
  intros Hp. unfold updateProgress_width, Math_max, Math_min, js_lt, Qltb, Qle_bool.
  cbn [inject_Z Qnum Qden]. rewrite !Z.mul_1_r.
  destruct (Z.leb_spec p 0) as [H0|H0]; cbn [negb].
  - assert (p = 0)%Z as -> by lia. reflexivity.
  - cbn [inject_Z Qnum Qden]. rewrite !Z.mul_1_r.
    destruct (Z.leb_spec 100 p) as [H1|H1]; cbn [negb]; [|reflexivity].
    assert (p = 100)%Z as -> by lia. reflexivity.
Qed.

(** X18: the progress bar shows what the server sent.  The progress of
    every [agent-progress] event of every response, live or replayed, is
    a percentage between 0 and 100, so the clamp of [updateProgress]
    leaves it as it is. *)
Theorem progress_bar_shows_progress w i c e id p log :
  reachable w -> calls w !! i = Some c ->
  In e (written (res c)) -> data e = AgentProgressData id p log ->
  (0 <= p <= 100)%Z
  /\ updateProgress_width (Fin (inject_Z p)) = Fin (inject_Z p).
Proof.
  intros Hw Hc He Hdata.
  assert (Hall : Forall progress_in_range (written (res c))).
  { apply reachable_ok in Hw as [Hcalls _]. rewrite Forall_lookup in Hcalls.
    destruct (Hcalls i c Hc) as [(x & ph & -> & Hok) | (jid & x & ->)].
    - pose proof (planAgents_steps (x_requestText x)) as Hsteps. fold (plan_of x) in Hsteps.
      destruct ph as [dn a n rest | dn a n rest |]; cbn [call_in res written].
      + destruct Hok as [_ [Hplan Hn]]. by eapply events_upto_in_range.
      + destruct Hok as [_ [Hplan [Hn _]]]. apply Forall_app.
        split; [by eapply events_upto_in_range|].
        constructor; [intros id' p' log' Hd; discriminate | constructor].
      + unfold header. constructor; [intros id' p' log' Hd; discriminate|].
        constructor; [intros id' p' log' Hd; discriminate|]. cbn [app].
        apply Forall_app. split; [by apply agents_events_in_range|].
        constructor; [intros id' p' log' Hd; discriminate | constructor].
    - cbn [replay_call res written]. unfold replay_events.
      constructor; [intros id' p' log' Hd; discriminate|].
      constructor; [intros id' p' log' Hd; discriminate|]. cbn [app].
      apply Forall_app. split.
      + induction (Job.agents (completed_job x (plan_of x))) as [|r runs IH];
          cbn [flat_map]; [constructor|].
        apply Forall_app. split; [|exact IH].
        constructor; [intros id' p' log' Hd; discriminate|].
        constructor; [intros id' p' log' Hd; cbn in Hd; injection Hd as _ <- _; lia|].
        constructor; [intros id' p' log' Hd; discriminate | constructor].
      + constructor; [intros id' p' log' Hd; discriminate | constructor]. }
  rewrite Forall_forall in Hall.
  assert (Hp : (0 <= p <= 100)%Z) by (eapply Hall; [by apply list_elem_of_In | exact Hdata]).
  split; [exact Hp | by apply width_of_percentage].
Qed.

End Server.

(** * The properties at concrete requests

    The built-ins are those of ASCII text here. *)

Lemma planAgents_keyword_stages_witness :
  planAgents ascii_toLowerCase "Quarterly API costs"
  = [ finance;
      Agent.mk "planner" "Planner" "Break down the request" 1;
      Agent.mk "researcher" "Researcher" "Gather data and sources" 3;
      engineer;
      Agent.mk "analyst" "Analyst" "Analyze trends and insights" 3;
      Agent.mk "visualizer" "Visualizer" "Create charts/tables" 2;
      Agent.mk "editor" "Editor" "Compose final structured report" 2 ].
Proof.
  destruct (planAgents_keyword_stages ascii_toLowerCase "Quarterly API costs")
    as (_ & _ & H).
  apply H; reflexivity.
Defined.

(** C8, as stated, fails: a request that is present and is a string, the
    empty one, is answered with the client error. *)
Lemma submit_rejects_empty_string :
  let body := Some (JObj [("request", JStr "")]) in
  request_of body = Some (JStr "")
  /\ is_string (JStr "") = true
  /\ submit body "V1StGXR8_Z5jdHi6B-myT" = BadRequest "Missing request string".
Proof. repeat split. Qed.

Lemma submit_validation_witness :
  let bodies := [ Some (JObj [("request", JStr "Draft API integration plan")]);
                  Some (JObj [("request", JStr "")]);
                  Some (JObj [("request", JStr "Draft a report")]) ] in
  submissions first_unused [] bodies
  = [Ok "0"; BadRequest "Missing request string"; Ok "1"]
  /\ NoDup (submitted_ids (submissions first_unused [] bodies)).
Proof.
  intros bodies. split; [by vm_compute|].
  destruct (submit_validation ascii_toLowerCase ascii_Number first_unused [] None)
    as (_ & _ & _ & _ & H).
  apply H.
Defined.

(** C9 at a parameter that is not a number: the failure rate the runner is
    given is NaN, which is no number of [0, 1]. *)
Theorem fail_of_not_clamped :
  fail_of ascii_Number (QStr "abc") = NaN
  /\ ~ in_unit_interval (fail_of ascii_Number (QStr "abc")).
Proof. split; [reflexivity | intros []]. Qed.

Local Abbreviation ascii_step := (step ascii_toLowerCase ascii_Number).
Local Abbreviation ascii_run := (run ascii_toLowerCase ascii_Number).
Local Abbreviation ascii_reachable := (reachable ascii_toLowerCase ascii_Number).

(** A run at failure rate one half whose first draw passed: the planner
    agent is complete, the researcher awaits its first step. *)
Local Abbreviation half_way :=
  (ascii_run initial
     [ Stream "job-1" (QStr "Draft a report") (QStr "0.5") 1000; Timer 0 (3 # 4) ]).

(** A run without failure, through to its end (eleven steps). *)
Local Abbreviation all_done :=
  (ascii_run initial
     (Stream "job-1" (QStr "Draft a report") QAbsent 1000
      :: repeat (Timer 0 (1 # 2)) 11)).

(** A run at failure rate 1, after its first timer. *)
Local Abbreviation broken :=
  (ascii_run initial
     [ Stream "job-1" (QStr "Draft a report") (QStr "1") 1000; Timer 0 (1 # 2) ]).

Ltac valid_actions :=
  repeat (constructor; [first [exact I | split; by vm_compute]|]); constructor.

Lemma half_way_reachable : ascii_reachable half_way.
Proof. eexists. split; [|reflexivity]. valid_actions. Qed.

Lemma all_done_reachable : ascii_reachable all_done.
Proof. eexists. split; [|reflexivity]. cbn [repeat]. valid_actions. Qed.

Lemma broken_reachable : ascii_reachable broken.
Proof. eexists. split; [|reflexivity]. valid_actions. Qed.

Lemma progress_and_failure_invariant_witness :
  ascii_reachable half_way
  /\ Run.progress <$> run_at (ascii_step half_way (Timer 0 (1 # 4))) 0 1
     = Run.progress <$> run_at half_way 0 1
  /\ Run.logs <$> run_at (ascii_step half_way (Timer 0 (1 # 4))) 0 1
     = Run.logs <$> run_at half_way 0 1.
Proof.
  split; [exact half_way_reachable|].
  destruct (progress_and_failure_invariant ascii_toLowerCase ascii_Number half_way
              half_way_reachable) as (_ & H & _).
  destruct (run_at half_way 0 1) as [rec|] eqn:Hrec; [|by vm_compute in Hrec].
  destruct (run_at (ascii_step half_way (Timer 0 (1 # 4))) 0 1) as [rec'|] eqn:Hrec';
    [|by vm_compute in Hrec'].
  assert (Run.status rec' = "failed") as Hfailed
    by (vm_compute in Hrec'; by injection Hrec' as <-).
  destruct (H (Timer 0 (1 # 4)) 0%nat 1%nat rec rec') as [Hp Hl];
    [split; by vm_compute | exact Hrec | exact Hrec' | exact Hfailed |].
  cbn. by rewrite Hp, Hl.
Defined.

Lemma replay_event_order_witness :
  ascii_reachable all_done
  /\ Job.status <$> jobs_get all_done "job-1" = Some "completed"
  /\ names (written (res (replay_call "job-1"
                            (default (new_job "job-1" 0) (jobs_get all_done "job-1")))))
     = [ "job-start"; "plan";
         "agent-start"; "agent-progress"; "agent-complete";
         "agent-start"; "agent-progress"; "agent-complete";
         "agent-start"; "agent-progress"; "agent-complete";
         "agent-start"; "agent-progress"; "agent-complete";
         "agent-start"; "agent-progress"; "agent-complete";
         "job-complete" ].
Proof.
  split; [exact all_done_reachable|]. split; [by vm_compute|].
  destruct (jobs_get all_done "job-1") as [existing|] eqn:Hget; [|by vm_compute in Hget].
  assert (Job.status existing = "completed") as Hst
    by (vm_compute in Hget; by injection Hget as <-).
  destruct (replay_event_order ascii_toLowerCase ascii_Number all_done "job-1" existing
              QAbsent QAbsent 2000%Z all_done_reachable Hget Hst)
    as (i & live & x & _ & _ & _ & Hlive & Hjob & Hsq & _).
  change (default (new_job "job-1" 0) (Some existing)) with existing.
  cbn [replay_call res written]. rewrite <- Hsq.
  assert (i = 0%nat) as ->.
  { apply lookup_lt_Some in Hlive. vm_compute in Hlive. lia. }
  vm_compute in Hlive. injection Hlive as <-. by vm_compute.
Defined.

Lemma failure_ends_job_witness :
  ascii_reachable half_way
  /\ (exists c k, calls half_way !! 0%nat = Some c /\ awaiting c = Some k
                  /\ js_lt (Fin (1 # 4)) (k_failRate k) = true)
  /\ (exists c', calls (ascii_step half_way (Timer 0 (1 # 4))) !! 0%nat = Some c'
                 /\ count_event "job-error" (written (res c')) = 1%nat
                 /\ ended (res c') = true)
  /\ (exists c, calls broken !! 0%nat = Some c
                /\ names (written (res c))
                   = ["job-start"; "plan"; "agent-start"; "job-error"]).
Proof.
  split; [exact half_way_reachable|].
  destruct (failure_ends_job ascii_toLowerCase ascii_Number) as [HA HB].
  destruct (calls half_way !! 0%nat) as [c|] eqn:Hc; [|by vm_compute in Hc].
  destruct (awaiting c) as [k|] eqn:Hk;
    [|vm_compute in Hc; injection Hc as <-; by vm_compute in Hk].
  assert (js_lt (Fin (1 # 4)) (k_failRate k) = true) as Hfail.
  { vm_compute in Hc. injection Hc as <-. vm_compute in Hk. by injection Hk as <-. }
  split; [by exists c, k|]. split.
  - destruct (HA half_way 0%nat c k (1 # 4) half_way_reachable Hc Hk Hfail)
      as (c' & j' & rec & Hc' & _ & Herr & _ & Hend & _).
    by exists c'.
  - destruct (HB initial "job-1" (QStr "Draft a report") (QStr "1") 1000%Z
                [Timer 0 (1 # 2)]) as (c1 & Hc1 & Hn & _).
    + reflexivity.
    + reflexivity.
    + valid_actions.
    + cbn. lia.
    + by exists c1.
Defined.

Lemma failure_free_job_witness :
  exists c,
    calls (ascii_run (stream ascii_toLowerCase ascii_Number "job-1"
                        (QStr "Summarize last three quarters financial trends")
                        QAbsent 1000 initial)
             (repeat (Timer 0 (1 # 2)) 13)) !! 0%nat = Some c
    /\ count_event "job-error" (written (res c)) = 0%nat
    /\ ended (res c) = true.
Proof.
  destruct (failure_free_job ascii_toLowerCase ascii_Number initial "job-1"
              (QStr "Summarize last three quarters financial trends") QAbsent 1000%Z
              (repeat (Timer 0 (1 # 2)) 13)) as (c & Hc & Herr & Hend & _).
  - reflexivity.
  - reflexivity.
  - cbn [repeat]. valid_actions.
  - exists c. split; [exact Hc|]. split; [exact Herr|]. apply Hend. by vm_compute.
Defined.

(** C6, as stated, fails: a submission leaves the registry without a
    record of the identity, and the record that opening the stream creates
    is 'running' from the start; no record is ever 'pending'. *)
Lemma job_is_never_pending :
  let body := Some (JObj [("request", JStr "Draft a report")]) in
  let submitted := ascii_step initial (Submit body "job-1") in
  let opened := ascii_step submitted (Stream "job-1" (QStr "Draft a report") QAbsent 1000) in
  submit body "job-1" = Ok "job-1"
  /\ jobs_get submitted "job-1" = None
  /\ Job.status <$> jobs_get opened "job-1" = Some "running"
  /\ ~ (exists j, jobs_get submitted "job-1" = Some j /\ Job.status j = "pending")
  /\ ~ (exists j, jobs_get opened "job-1" = Some j /\ Job.status j = "pending").
Proof.
  repeat split; try by vm_compute.
  - intros (j & Hj & _). by vm_compute in Hj.
  - intros (j & Hj & Hst). vm_compute in Hj. injection Hj as <-. discriminate.
Qed.

Lemma job_lifecycle_witness :
  ascii_reachable half_way
  /\ (exists c j, calls half_way !! 0%nat = Some c /\ job c = Some j
                  /\ Job.status j = "running")
  /\ (exists c' j', calls (ascii_step half_way (Timer 0 (1 # 4))) !! 0%nat = Some c'
                    /\ job c' = Some j'
                    /\ lifecycle "running" (Job.status j')).
Proof.
  split; [exact half_way_reachable|].
  destruct (job_lifecycle ascii_toLowerCase ascii_Number) as (_ & _ & _ & H).
  destruct (calls half_way !! 0%nat) as [c|] eqn:Hc; [|by vm_compute in Hc].
  destruct (job c) as [j|] eqn:Hj;
    [|vm_compute in Hc; injection Hc as <-; by vm_compute in Hj].
  assert (Job.status j = "running") as Hst.
  { vm_compute in Hc. injection Hc as <-. vm_compute in Hj. by injection Hj as <-. }
  split; [by exists c, j|].
  destruct (H half_way (Timer 0 (1 # 4)) 0%nat c j half_way_reachable) as [_ Hnext];
    [split; by vm_compute | exact Hc | exact Hj |].
  destruct Hnext as (c' & j' & Hc' & Hj' & Hl). rewrite Hst in Hl. by exists c', j'.
Defined.

(** C7, as stated, fails for the status 'error': a stream opened against
    the identity of a failed job starts a new run, whose job object takes
    the place of the failed one in the registry. *)
Lemma error_record_replaced :
  let reopened := ascii_step broken (Stream "job-1" QAbsent QAbsent 2000) in
  Job.status <$> jobs_get broken "job-1" = Some "error"
  /\ Job.status <$> jobs_get reopened "job-1" = Some "running"
  /\ jobs_get reopened "job-1" <> jobs_get broken "job-1".
Proof.
  repeat split; by vm_compute.
Qed.

Lemma completed_record_immutable_witness :
  ascii_reachable all_done
  /\ Job.status <$> jobs_get all_done "job-1" = Some "completed"
  /\ jobs_get (ascii_run all_done
                 [ Stream "job-1" (QStr "Something else") (QStr "1") 2000;
                   Timer 0 (1 # 2); Timer 1 (1 # 2);
                   Stream "job-2" QAbsent QAbsent 3000 ]) "job-1"
     = jobs_get all_done "job-1".
Proof.
  split; [exact all_done_reachable|]. split; [by vm_compute|].
  assert (exists j, jobs_get all_done "job-1" = Some j /\ Job.status j = "completed")
    as (j & Hget & Hst) by (eexists; split; [by vm_compute | reflexivity]).
  etransitivity; [|symmetry; exact Hget].
  refine (completed_record_immutable ascii_toLowerCase ascii_Number all_done "job-1" j
            _ all_done_reachable _ Hget Hst).
  valid_actions.
Defined.

Lemma progress_event_per_step_witness :
  exists c,
    calls all_done !! 0%nat = Some c
    /\ map data (List.filter (progress_of "researcher") (written (res c)))
       = [ AgentProgressData "researcher" 33 "Researcher: completed step 1/3";
           AgentProgressData "researcher" 67 "Researcher: completed step 2/3";
           AgentProgressData "researcher" 100 "Researcher: completed step 3/3" ].
Proof.
  destruct (calls all_done !! 0%nat) as [c|] eqn:Hc; [|by vm_compute in Hc].
  destruct (job c) as [j|] eqn:Hj;
    [|vm_compute in Hc; injection Hc as <-; by vm_compute in Hj].
  assert (Job.status j = "completed") as Hst.
  { vm_compute in Hc. injection Hc as <-. vm_compute in Hj. by injection Hj as <-. }
  destruct (progress_event_per_step ascii_toLowerCase ascii_Number all_done 0 c j
              all_done_reachable Hc Hj Hst) as (x & Hw & H).
  exists c. split; [reflexivity|].
  assert (Hin : Agent.mk "researcher" "Researcher" "Gather data and sources" 3
                ∈ plan_of ascii_toLowerCase x)
    by (apply planAgents_baseline; unfold baseAgents; do 1 constructor; constructor).
  specialize (H _ Hin). cbn [Agent.id Agent.name Agent.steps] in H.
  rewrite H. by vm_compute.
Defined.

Lemma planAgents_baseline_order_witness :
  planAgents ascii_toLowerCase "Draft a report" = baseAgents.
Proof.
  destruct (planAgents_baseline_order ascii_toLowerCase "Draft a report")
    as (_ & _ & _ & _ & H).
  apply H; reflexivity.
Defined.

Lemma fail_of_clamp_witness :
  fail_of ascii_Number (QStr "-3") = Fin 0
  /\ fail_of ascii_Number (QStr "7") = Fin 1
  /\ fail_of ascii_Number (QStr "0.25") = Fin (1 # 4).
Proof.
  destruct (fail_of_clamp ascii_Number) as (_ & _ & H0 & H1 & Hq & _).
  split; [|split].
  - apply (H0 "-3" (- 3 # 1)%Q); [reflexivity | by vm_compute].
  - apply (H1 "7" (7 # 1)%Q); [reflexivity | by vm_compute].
  - apply (Hq "0.25" (1 # 4)%Q); [reflexivity | by vm_compute | by vm_compute].
Defined.

Lemma wire_injective_witness :
  wire [("plan", "{}"); ("job-error", "{}")] = wire [("plan", "{}"); ("job-error", "{}")]
  /\ [("plan", "{}"); ("job-error", "{}")] = [("plan", "{}"); ("job-error", "{}")].
Proof.
  split; [reflexivity|].
  apply (wire_injective [("plan", "{}"); ("job-error", "{}")]); [| |reflexivity];
    repeat (constructor; [by split|]); constructor.
Defined.

Lemma response_append_only_witness :
  exists c c',
    calls half_way !! 0%nat = Some c
    /\ calls (ascii_step half_way (Timer 0 (3 # 4))) !! 0%nat = Some c'
    /\ written (res c) `prefix_of` written (res c').
Proof.
  assert (exists c, calls half_way !! 0%nat = Some c) as [c Hc]
    by (eexists; by vm_compute).
  destruct (response_append_only ascii_toLowerCase ascii_Number half_way
              (Timer 0 (3 # 4)) 0 c half_way_reachable) as (c' & Hc' & Hpre & _);
    [split; by vm_compute | exact Hc |].
  exists c, c'. split; [exact Hc|]. split; [exact Hc' | exact Hpre].
Defined.

Lemma ended_iff_terminal_witness :
  exists c, calls broken !! 0%nat = Some c
            /\ ended (res c) = true /\ awaiting c = None.
Proof.
  assert (exists c, calls broken !! 0%nat = Some c /\ ended (res c) = true)
    as (c & Hc & Hend) by (eexists; split; [by vm_compute | reflexivity]).
  destruct (ended_iff_terminal ascii_toLowerCase ascii_Number broken 0 c
              broken_reachable Hc) as (H & _).
  exists c. split; [exact Hc|]. split; [exact Hend | apply H; exact Hend].
Defined.

Lemma one_terminal_event_witness :
  exists c, calls all_done !! 0%nat = Some c
            /\ (count_event "job-complete" (written (res c))
                + count_event "job-error" (written (res c)) = 1)%nat.
Proof.
  assert (exists c, calls all_done !! 0%nat = Some c /\ ended (res c) = true)
    as (c & Hc & Hend) by (eexists; split; [by vm_compute | reflexivity]).
  destruct (one_terminal_event ascii_toLowerCase ascii_Number all_done 0 c
              all_done_reachable Hc) as (_ & H & _).
  rewrite Hend in H. exists c. split; [exact Hc | exact H].
Defined.

Lemma agent_records_follow_plan_witness :
  exists c j,
    calls half_way !! 0%nat = Some c /\ job c = Some j
    /\ map Run.id (Job.agents j) `prefix_of` map Agent.id baseAgents.
Proof.
  assert (exists c j,
            calls half_way !! 0%nat = Some c /\ job c = Some j
            /\ written (res c) !! 1%nat
               = Some {| event := "plan"; data := PlanData baseAgents |})
    as (c & j & Hc & Hj & Hplan)
    by (eexists; eexists; split; [by vm_compute | split; reflexivity]).
  destruct (agent_records_follow_plan ascii_toLowerCase ascii_Number half_way 0 c j
              baseAgents half_way_reachable Hc Hj Hplan) as (H & _).
  exists c, j. split; [exact Hc|]. split; [exact Hj | exact H].
Defined.

Lemma agent_record_grows_witness :
  exists rec rec',
    run_at half_way 0 1 = Some rec
    /\ run_at (ascii_step half_way (Timer 0 (3 # 4))) 0 1 = Some rec'
    /\ (Run.progress rec <= Run.progress rec')%Z
    /\ Run.logs rec `prefix_of` Run.logs rec'.
Proof.
  assert (exists rec, run_at half_way 0 1 = Some rec) as [rec Hrec]
    by (eexists; by vm_compute).
  destruct (agent_record_grows ascii_toLowerCase ascii_Number half_way
              (Timer 0 (3 # 4)) 0 1 rec half_way_reachable)
    as (_ & rec' & Hrec' & _ & _ & _ & Hp & Hl);
    [split; by vm_compute | exact Hrec |].
  exists rec, rec'. split; [exact Hrec|]. split; [exact Hrec'|].
  split; [exact Hp | exact Hl].
Defined.

Lemma completed_job_result_witness :
  exists c j result,
    calls all_done !! 0%nat = Some c /\ job c = Some j
    /\ Job.result j = Some result
    /\ Result.synthesizedSummary result
       = String.concat newline (map summary_of (Job.agents j)).
Proof.
  assert (exists c j, calls all_done !! 0%nat = Some c /\ job c = Some j
                      /\ Job.status j = "completed")
    as (c & j & Hc & Hj & Hst)
    by (eexists; eexists; split; [by vm_compute | split; reflexivity]).
  destruct (completed_job_result ascii_toLowerCase ascii_Number all_done 0 c j
              all_done_reachable Hc Hj) as [_ H].
  destruct (H Hst) as (result & Hres & _ & _ & Hsum & _).
  exists c, j, result. split; [exact Hc|]. split; [exact Hj|].
  split; [exact Hres | exact Hsum].
Defined.

(** A submission, then a stream for another identity. *)
Local Abbreviation submit_then_stream :=
  [ Submit (Some (JObj [("request", JStr "Draft a report")])) "job-1";
    Stream "job-2" QAbsent QAbsent 1000 ].

Lemma registry_lookup_witness :
  ~ is_Some (jobs_get (ascii_run initial submit_then_stream) "job-1")
  /\ is_Some (jobs_get (ascii_run initial submit_then_stream) "job-2").
Proof.
  destruct (registry_lookup ascii_toLowerCase ascii_Number submit_then_stream "job-1")
    as [H1 _]; [valid_actions|].
  destruct (registry_lookup ascii_toLowerCase ascii_Number submit_then_stream "job-2")
    as [H2 _]; [valid_actions|].
  split; [intros H; apply H1 in H; discriminate | apply H2; reflexivity].
Defined.

Lemma transition_is_local_witness :
  exists c,
    calls half_way !! 0%nat = Some c
    /\ calls (ascii_step half_way (Stream "job-2" QAbsent QAbsent 2000)) !! 0%nat = Some c
    /\ jobs (ascii_step half_way (Timer 0 (3 # 4))) !! "job-1" = jobs half_way !! "job-1".
Proof.
  assert (exists c, calls half_way !! 0%nat = Some c) as [c Hc]
    by (eexists; by vm_compute).
  destruct (transition_is_local ascii_toLowerCase ascii_Number half_way
              (Stream "job-2" QAbsent QAbsent 2000%Z)) as (H1 & _).
  destruct (transition_is_local ascii_toLowerCase ascii_Number half_way
              (Timer 0 (3 # 4))) as (_ & H2 & _).
  exists c. split; [exact Hc|]. split.
  - apply H1; [exact Hc | intros r; discriminate].
  - apply H2. intros q failRate now. discriminate.
Defined.

Lemma progress_counts_firings_witness :
  exists c,
    calls (ascii_run (stream ascii_toLowerCase ascii_Number "job-1"
                        (QStr "Draft a report") QAbsent 1000 initial)
             (repeat (Timer 0 (1 # 2)) 4)) !! 0%nat = Some c
    /\ count_event "agent-progress" (written (res c)) = 4%nat
    /\ ended (res c) = false.
Proof.
  destruct (progress_counts_firings ascii_toLowerCase ascii_Number initial "job-1"
              (QStr "Draft a report") QAbsent 1000%Z (repeat (Timer 0 (1 # 2)) 4))
    as (c & Hc & Hn & Hend & _).
  - reflexivity.
  - reflexivity.
  - cbn [repeat]. valid_actions.
  - exists c. split; [exact Hc|]. split; [rewrite Hn; by vm_compute|].
    destruct (ended (res c)); [|reflexivity].
    assert (Hle : (11 <= 4)%nat) by (by apply Hend). lia.
Defined.

Lemma not_a_number_rate_never_fails_witness :
  exists c,
    calls (ascii_run (stream ascii_toLowerCase ascii_Number "job-1"
                        (QStr "Draft a report") (QStr "abc") 1000 initial)
             (repeat (Timer 0 0) 11)) !! 0%nat = Some c
    /\ count_event "job-error" (written (res c)) = 0%nat.
Proof.
  destruct (not_a_number_rate_never_fails ascii_toLowerCase ascii_Number initial "job-1"
              (QStr "Draft a report") "abc" 1000%Z (repeat (Timer 0 0) 11))
    as (c & c0 & Hc & _ & _ & _ & Herr).
  - reflexivity.
  - reflexivity.
  - cbn [repeat]. valid_actions.
  - exists c. split; [exact Hc | exact Herr].
Defined.

Lemma replay_carries_live_data_witness :
  exists existing plan,
    jobs_get all_done "job-1" = Some existing
    /\ replay_plan existing <> plan
    /\ length (replay_events "job-1" existing) = (3 + 3 * length plan)%nat.
Proof.
  assert (exists j, jobs_get all_done "job-1" = Some j /\ Job.status j = "completed")
    as (j & Hget & Hst) by (eexists; split; [by vm_compute | reflexivity]).
  destruct (replay_carries_live_data ascii_toLowerCase ascii_Number all_done "job-1" j
              all_done_reachable Hget Hst)
    as (i & live & plan & _ & _ & _ & _ & _ & Hne & Hlen).
  exists j, plan. split; [exact Hget|]. split; [exact Hne | exact Hlen].
Defined.

Lemma attach_starts_second_run_witness :
  exists old j,
    jobs_get broken "job-1" = Some old /\ Job.status old = "error"
    /\ jobs_get (ascii_step broken (Stream "job-1" QAbsent QAbsent 2000)) "job-1" = Some j
    /\ Job.status j = "running".
Proof.
  assert (exists old, jobs_get broken "job-1" = Some old /\ Job.status old = "error")
    as (old & Hget & Hst) by (eexists; split; [by vm_compute | reflexivity]).
  destruct (attach_starts_second_run ascii_toLowerCase ascii_Number broken "job-1" old
              QAbsent QAbsent 2000%Z broken_reachable Hget)
    as (i & c_old & c_new & j & a & _ & _ & _ & _ & _ & _ & _ & Hnew & _ & Hj & _).
  - rewrite Hst. discriminate.
  - exists old, j. split; [exact Hget|]. split; [exact Hst|].
    split; [exact Hnew|]. rewrite Hj. reflexivity.
Defined.

Lemma page_request_completes_witness :
  post_submit short_texts (JObj [("request", JStr "Draft a report")]) "job-1"
  = Delivered (Ok "job-1")
  /\ exists w' c,
       get_stream ascii_toLowerCase ascii_Number short_texts "job-1" "Draft a report"
         1000 initial = Delivered w'
       /\ calls (ascii_run w' (repeat (Timer 0 (1 # 2)) 11)) !! 0%nat = Some c
       /\ ended (res c) = true.
Proof.
  assert (Hl : Forall (valid) (repeat (Timer 0 (1 # 2)) 11))
    by (cbn [repeat]; valid_actions).
  assert (Hfires : (total_steps (planAgents ascii_toLowerCase (trim "  Draft a report  "))
                    <= fires (length (calls initial)) (repeat (Timer 0 (1 # 2)) 11))%nat)
    by (by vm_compute).
  pose proof (page_request_completes ascii_toLowerCase ascii_Number trim short_texts
                "  Draft a report  " "job-1" initial 1000%Z
                (repeat (Timer 0 (1 # 2)) 11) eq_refl Hl Hfires) as H.
  change (form_submit trim "  Draft a report  ")
    with (Some (JObj [("request", JStr "Draft a report")])) in H.
  cbv beta iota in H.
  destruct H as (_ & _ & Hpost & Hget).
  split; [apply Hpost; reflexivity|].
  destruct Hget as (w' & c & result & Hw' & Hc & Hend & _); [reflexivity|].
  exists w', c. split; [exact Hw'|]. split; [exact Hc | exact Hend].
Defined.

Lemma progress_bar_shows_progress_witness :
  updateProgress_width (Fin (inject_Z 33)) = Fin (inject_Z 33).
Proof.
  assert (exists c,
            calls all_done !! 0%nat = Some c
            /\ In {| event := "agent-progress";
                     data := AgentProgressData "researcher" 33
                               "Researcher: completed step 1/3" |}
                 (written (res c)))
    as (c & Hc & Hin)
    by (eexists; split; [by vm_compute | do 6 right; left; reflexivity]).
  apply (progress_bar_shows_progress ascii_toLowerCase ascii_Number all_done 0 c _
           "researcher" 33%Z "Researcher: completed step 1/3"
           all_done_reachable Hc Hin eq_refl).
Defined.
